(** * Door detector: visitor classification and the event/audio controller

    A shallow embedding of [door_detector.py].

    - Labels, categories, track names and file names are Python strings and
      stay strings here; the three module-level dicts are association lists
      whose lookup raises [KeyError] on a missing key.
    - Timestamps ([time.time()]), the blink interval and the playback offsets
      are Python floats.  They are embedded as rationals: every finite float
      is a rational, the float remainder [now % 1.0] is exact for [now >= 0],
      and the sign of a float difference is the sign of the exact one, so the
      two comparisons the program makes on them are decided identically.
    - YOLO, face_recognition, OpenCV and pygame are external services.  The
      vision services are the fields of the class [Vision]; the music channel
      of pygame is the record [Mixer] together with the log of the calls made
      on it.  Calls into these services are taken to return normally. *)

From Stdlib Require Import String Ascii List Bool ZArith QArith Qround Lia Lqa.
Import ListNotations.

Close Scope Q_scope.
Open Scope string_scope.

(* ------------------------------------------------------------------------- *)
(** ** Detection results and the vision services                              *)
(* ------------------------------------------------------------------------- *)

(** One detected box; [cls] is the class index [int(box.cls[0])]. *)
Record Box := mkBox { cls : nat }.

(** One element of [results]; [boxes] is [r.boxes]. *)
Record Result := mkResult { boxes : list Box }.

(** The pretrained models, as the program sees them.  [names] is
    [model.names] of the weights file, [detect] is the call [model(frame)],
    [cvtColor] is [cv2.cvtColor(frame, cv2.COLOR_BGR2RGB)], the rest are the
    functions of [face_recognition] ([face_locations] with [model="hog"]). *)
Class Vision := {
  Frame : Type;
  Location : Type;
  Encoding : Type;
  names : nat -> string;
  detect : Frame -> list Result;
  cvtColor : Frame -> Frame;
  face_locations : Frame -> list Location;
  face_encodings : Frame -> list Location -> list Encoding;
  compare_faces : list Encoding -> Encoding -> list bool
}.

(** Python's [x in l] on a list of strings. *)
Definition str_in (x : string) (l : list string) : bool :=
  existsb (String.eqb x) l.

(** Python's [True in l] on a list of booleans. *)
Definition true_in (l : list bool) : bool := existsb (fun b => b) l.

(* ------------------------------------------------------------------------- *)
(** ** Classification                                                         *)
(* ------------------------------------------------------------------------- *)

Section Classifier.
Context `{V : Vision}.

(** The calls [classify_visitor] makes on the face services, in order. *)
Inductive VisionCall :=
| CallCvtColor (f : Frame)
| CallFaceLocations (rgb : Frame)
| CallFaceEncodings (rgb : Frame) (faces : list Location)
| CallCompareFaces (known : list Encoding) (enc : Encoding).

(** The label list built by the two nested loops over [results]. *)
Definition detected_labels (results : list Result) : list string :=
  flat_map (fun r => map (fun box => names (cls box)) (boxes r)) results.

(** The cue labels of step 3. *)
Definition delivery_cues : list string :=
  ["handbag"; "backpack"; "helmet"; "suit"; "hat"].

(** [for enc in encs: if True in compare_faces(known, enc): return "friend"]:
    whether the loop returns, and the comparisons made until it does. *)
Fixpoint friend_scan (known : list Encoding) (encs : list Encoding)
  : bool * list VisionCall :=
  match encs with
  | [] => (false, [])
  | enc :: rest =>
      if true_in (compare_faces known enc)
      then (true, [CallCompareFaces known enc])
      else let (found, calls) := friend_scan known rest in
           (found, CallCompareFaces known enc :: calls)
  end.

(** [for label in detected: if label in [...]: return "delivery"]. *)
Fixpoint cue_scan (detected : list string) : bool :=
  match detected with
  | [] => false
  | label :: rest =>
      if str_in label delivery_cues then true else cue_scan rest
  end.

(** [classify_visitor(frame, results)] with the global
    [known_face_encodings] as a parameter; the second component is the log
    of service calls made. *)
Definition classify_visitor (known : list Encoding) (frame : Frame)
    (results : list Result) : string * list VisionCall :=
  let detected := detected_labels results in
  if negb (str_in "person" detected) then ("noperson", [])
  else
    let rgb := cvtColor frame in
    let faces := face_locations rgb in
    let encs := face_encodings rgb faces in
    let pre := [CallCvtColor frame; CallFaceLocations rgb;
                CallFaceEncodings rgb faces] in
    let (found, cmp) := friend_scan known encs in
    if found then ("friend", (pre ++ cmp)%list)
    else if cue_scan detected then ("delivery", (pre ++ cmp)%list)
    else ("thief", (pre ++ cmp)%list).

(** The faces found in a frame, as [classify_visitor] computes them. *)
Definition frame_encodings (frame : Frame) : list Encoding :=
  face_encodings (cvtColor frame) (face_locations (cvtColor frame)).

(** Some face of the frame matches some gallery encoding. *)
Definition face_match (known : list Encoding) (frame : Frame) : Prop :=
  exists enc, In enc (frame_encodings frame)
              /\ In true (compare_faces known enc).

End Classifier.

(* ------------------------------------------------------------------------- *)
(** ** Exceptions and the state monad of the script                           *)
(* ------------------------------------------------------------------------- *)

(** The two exceptions the script itself can raise: a dict lookup on a
    missing key, and [sys.exit(code)]. *)
Inductive Exn :=
| KeyError (key : string)
| SystemExit (code : Z).

Inductive Res (A : Type) :=
| Ok (a : A)
| Raise (e : Exn).
Arguments Ok {A} a.
Arguments Raise {A} e.

(** A statement of the script: it runs on the globals [S], returns or raises,
    and in both cases leaves the globals as they were when it stopped. *)
Definition M (S A : Type) : Type := S -> Res A * S.

Definition ret {S A} (a : A) : M S A := fun s => (Ok a, s).

Definition raise {S A} (e : Exn) : M S A := fun s => (Raise e, s).

Definition bind {S A B} (m : M S A) (k : A -> M S B) : M S B :=
  fun s => match m s with
           | (Ok a, s') => k a s'
           | (Raise e, s') => (Raise e, s')
           end.

Definition gets {S A} (f : S -> A) : M S A := fun s => (Ok (f s), s).

Definition modify {S} (f : S -> S) : M S unit := fun s => (Ok tt, f s).

Declare Scope py_scope.
Delimit Scope py_scope with py.
Notation "x <- m ;; k" := (bind m (fun x => k))
  (at level 61, m at next level, right associativity) : py_scope.
Notation "m ;; k" := (bind m (fun _ => k))
  (at level 61, right associativity) : py_scope.
Open Scope py_scope.

(** A dict with string keys, in the order of its literal. *)
Definition Dict (A : Type) : Type := list (string * A).

Fixpoint assoc {A} (d : Dict A) (k : string) : option A :=
  match d with
  | [] => None
  | (k', v) :: rest => if String.eqb k k' then Some v else assoc rest k
  end.

(** [d[k]]. *)
Definition dict_get {S A} (d : Dict A) (k : string) : M S A :=
  match assoc d k with
  | Some v => ret v
  | None => raise (KeyError k)
  end.

(* ------------------------------------------------------------------------- *)
(** ** Sound helpers                                                          *)
(* ------------------------------------------------------------------------- *)

Definition sound_files : Dict string :=
  [ ("background", "toto_africa.mp3");
    ("friend",     "me_and_your_mama.mp3.mp3");
    ("thief",      "horror-tension-suspense-322304.mp3");
    ("delivery",   "dr_alban.mp3") ].

Definition COLOR : Dict (Z * Z * Z) :=
  [ ("thief",    (0, 0, 255)%Z);
    ("friend",   (0, 255, 0)%Z);
    ("delivery", (255, 255, 0)%Z);
    ("noperson", (255, 255, 255)%Z) ].

Definition delays : Dict Z :=
  [ ("friend", 0%Z); ("thief", 0%Z); ("delivery", 0%Z); ("noperson", 0%Z) ].

(** The calls made on [pygame.mixer], as they are logged. *)
Inductive MixerCall :=
| MusicStop
| MusicLoad (file : string)
| MusicPlay (loops : Z) (start : Q)
| MixerQuit.

(** The music channel of pygame: the file loaded, whether it is playing
    ([get_busy()]), and the arguments of the last [play]. *)
Record Mixer := mkMixer {
  loaded : option string;
  busy : bool;
  loops : Z;
  start_pos : Q
}.

(** The globals of the controller, with the mixer and the log of the calls
    made on it since [pygame.mixer.init()]. *)
Record State := mkState {
  mixer : Mixer;
  audio_log : list MixerCall;
  current_track : option string;
  last_event : option string;
  event_start_time : Q;
  event_played : bool
}.

(** What one call does to the channel.  [load] replaces the stream, which
    stops the previous one; [play] starts the loaded stream. *)
Definition mixer_apply (c : MixerCall) (m : Mixer) : Mixer :=
  match c with
  | MusicStop => mkMixer (loaded m) false (loops m) (start_pos m)
  | MusicLoad file => mkMixer (Some file) false (loops m) (start_pos m)
  | MusicPlay l st => mkMixer (loaded m) true l st
  | MixerQuit => mkMixer None false (loops m) (start_pos m)
  end.

Definition mixer_call (c : MixerCall) : M State unit :=
  modify (fun s => mkState (mixer_apply c (mixer s)) (audio_log s ++ [c])
                           (current_track s) (last_event s)
                           (event_start_time s) (event_played s)).

Definition music_stop : M State unit := mixer_call MusicStop.
Definition music_load (file : string) : M State unit :=
  mixer_call (MusicLoad file).
Definition music_play (loop : Z) (start : Q) : M State unit :=
  mixer_call (MusicPlay loop start).
Definition mixer_quit : M State unit := mixer_call MixerQuit.
Definition music_get_busy : M State bool := gets (fun s => busy (mixer s)).

(** The channel runs on its own: between two iterations of the loop the
    stream may reach its end, after which [get_busy()] is false. *)
Definition track_ended (s : State) : State :=
  mkState (mkMixer (loaded (mixer s)) false (loops (mixer s))
                   (start_pos (mixer s)))
          (audio_log s) (current_track s) (last_event s)
          (event_start_time s) (event_played s).

Definition set_current_track (t : option string) : M State unit :=
  modify (fun s => mkState (mixer s) (audio_log s) t (last_event s)
                           (event_start_time s) (event_played s)).

Definition set_last_event (e : option string) : M State unit :=
  modify (fun s => mkState (mixer s) (audio_log s) (current_track s) e
                           (event_start_time s) (event_played s)).

Definition set_event_start_time (t : Q) : M State unit :=
  modify (fun s => mkState (mixer s) (audio_log s) (current_track s)
                           (last_event s) t (event_played s)).

Definition set_event_played (b : bool) : M State unit :=
  modify (fun s => mkState (mixer s) (audio_log s) (current_track s)
                           (last_event s) (event_start_time s) b).

(** [play_sound(file, loop=0, start=0.0)]. *)
Definition play_sound (file : string) (loop : Z) (start : Q) : M State unit :=
  if negb (String.eqb file "toto_africa.mp3") then
    music_load file ;;
    music_play loop 27%Q
  else
    music_load file ;;
    music_play loop start.

(** [play_track(name, loop=0)]; [play_sound] gets its default [start]. *)
Definition play_track (name : string) (loop : Z) : M State unit :=
  music_stop ;;
  file <- dict_get sound_files name ;;
  play_sound file loop 0%Q ;;
  set_current_track (Some name).

(** The globals after [pygame.mixer.init()] and the assignments of lines 46
    and 123 to 125. *)
Definition initial_state : State :=
  mkState (mkMixer None false 0%Z 0%Q) [] None None 0%Q false.

(* ------------------------------------------------------------------------- *)
(** ** Event handling (one iteration of the main loop)                        *)
(* ------------------------------------------------------------------------- *)

(** [x != y] on values that are a string or [None]. *)
Definition opt_str_neq (x y : option string) : bool :=
  match x, y with
  | Some a, Some b => negb (String.eqb a b)
  | None, None => false
  | _, _ => true
  end.

Definition Qlt_bool (x y : Q) : bool := negb (Qle_bool y x).

(** Lines 157 to 161. *)
Definition category_change (visitor : string) (now : Q) : M State unit :=
  last <- gets last_event ;;
  if opt_str_neq (Some visitor) last then
    set_last_event (Some visitor) ;;
    set_event_start_time now ;;
    set_event_played false ;;
    music_stop
  else ret tt.

(** Lines 165 and 166; [or] evaluates [get_busy()] only when the first test
    is false. *)
Definition keep_background : M State unit :=
  track <- gets current_track ;;
  restart <- (if opt_str_neq track (Some "background") then ret true
              else (b <- music_get_busy ;; ret (negb b))) ;;
  if restart then play_track "background" (-1)%Z else ret tt.

(** Lines 170 to 172; [and] looks [delays[visitor]] up only when
    [event_played] is false. *)
Definition start_one_shot (visitor : string) (now : Q) : M State unit :=
  played <- gets event_played ;;
  due <- (if negb played then
            started <- gets event_start_time ;;
            d <- dict_get delays visitor ;;
            ret (Qle_bool (inject_Z d) (now - started)%Q)
          else ret false) ;;
  if due then
    play_track visitor 0%Z ;;
    set_event_played true
  else ret tt.

(** Lines 175 to 178. *)
Definition resume_background (now : Q) : M State unit :=
  played <- gets event_played ;;
  finished <- (if played then (b <- music_get_busy ;; ret (negb b))
               else ret false) ;;
  if finished then
    play_track "background" (-1)%Z ;;
    set_event_played false ;;
    set_event_start_time now
  else ret tt.

(** Lines 157 to 178. *)
Definition event_handling (visitor : string) (now : Q) : M State unit :=
  category_change visitor now ;;
  if String.eqb visitor "noperson" then keep_background
  else
    start_one_shot visitor now ;;
    resume_background now.

(** The values [classify_visitor] can return. *)
Definition categories : list string :=
  ["friend"; "delivery"; "thief"; "noperson"].

(** The states the controller can be in at the top of an iteration: the one
    left by line 58, and from there any number of iterations and of streams
    running out in between. *)
Inductive reachable : State -> Prop :=
| reach_start :
    reachable (snd (play_track "background" (-1)%Z initial_state))
| reach_tick s visitor now :
    reachable s -> In visitor categories ->
    reachable (snd (event_handling visitor now s))
| reach_ended s :
    reachable s -> reachable (track_ended s).

(* ------------------------------------------------------------------------- *)
(** ** Overlay text                                                           *)
(* ------------------------------------------------------------------------- *)

Definition BLINK_INTERVAL : Q := (1 # 2)%Q.

(** Python's [x % m] on floats, for [m > 0]: the result lies in [0, m). *)
Definition float_mod (x m : Q) : Q :=
  (x - m * inject_Z (Qfloor (x / m)))%Q.

(** [thief_blink(now)]. *)
Definition thief_blink (now : Q) : bool :=
  Qlt_bool (float_mod now (2 * BLINK_INTERVAL)%Q) BLINK_INTERVAL.

(** The arguments of a [cv2.putText] call that vary; font, scale and
    thickness are the same in all three calls. *)
Record Overlay := mkOverlay {
  text : string;
  org : Z * Z;
  color : Z * Z * Z
}.

(** Lines 143 to 152: the text drawn on the frame, if any. *)
Definition overlay_text {S} (visitor : string) (now : Q)
  : M S (option Overlay) :=
  if String.eqb visitor "thief" then
    if thief_blink now then
      c <- dict_get COLOR "thief" ;;
      ret (Some (mkOverlay "Visitor: thief" (10, 30)%Z c))
    else ret None
  else if String.eqb visitor "noperson" then
    c <- dict_get COLOR "noperson" ;;
    ret (Some (mkOverlay "No person detected" (10, 30)%Z c))
  else
    c <- dict_get COLOR visitor ;;
    ret (Some (mkOverlay ("Visitor: " ++ visitor) (10, 30)%Z c)).

(* ------------------------------------------------------------------------- *)
(** ** The script, from line 58 to its end                                    *)
(* ------------------------------------------------------------------------- *)

(** What the script does besides driving the controller: the lines printed,
    the overlay of each frame handed to [cv2.imshow], and the number of
    frames taken from the camera. *)
Record World := mkWorld {
  ctl : State;
  stdout : list string;
  shown : list (option Overlay);
  frames_read : nat
}.

(** Run a controller statement on the controller part of the world. *)
Definition on_ctl {A} (m : M State A) : M World A :=
  fun w => let (r, s') := m (ctl w) in
           (r, mkWorld s' (stdout w) (shown w) (frames_read w)).

Definition print (line : string) : M World unit :=
  modify (fun w => mkWorld (ctl w) (stdout w ++ [line]) (shown w)
                           (frames_read w)).

Definition imshow (o : option Overlay) : M World unit :=
  modify (fun w => mkWorld (ctl w) (stdout w) (shown w ++ [o])
                           (frames_read w)).

Definition frame_taken : M World unit :=
  modify (fun w => mkWorld (ctl w) (stdout w) (shown w)
                           (S (frames_read w))).

(** [sys.exit(code)]. *)
Definition sys_exit {S A} (code : Z) : M S A := raise (SystemExit code).

(** [str.lower()] and [str.endswith(suffix)] on file names. *)
Definition lower_ascii (c : ascii) : ascii :=
  let n := nat_of_ascii c in
  if ((65 <=? n) && (n <=? 90))%nat then ascii_of_nat (n + 32) else c.

Fixpoint lower (s : string) : string :=
  match s with
  | EmptyString => EmptyString
  | String c rest => String (lower_ascii c) (lower rest)
  end.

Definition endswith (s suffix : string) : bool :=
  let n := String.length s in
  let m := String.length suffix in
  ((m <=? n)%nat && String.eqb (substring (n - m) m s) suffix)%bool.

Definition is_image_name (file : string) : bool :=
  let l := lower file in
  (endswith l ".png" || endswith l ".jpg" || endswith l ".jpeg")%bool.

Section Script.
Context `{V : Vision}.

(** What the machine answers at start-up.  [image_encodings path] is
    [face_recognition.face_encodings(load_image_file(path))]. *)
Record Environment := mkEnvironment {
  friends_dir : string;
  friends_isdir : bool;
  friends_listdir : list string;
  image_encodings : string -> list Encoding;
  camera_opened : bool
}.

(** What the machine answers during one iteration: the pair returned by
    [cap.read()], [time.time()], [cv2.waitKey(1)], and whether the stream
    of the mixer ran out since the previous iteration. *)
Record Tick := mkTick {
  read_ok : bool;
  read_frame : Frame;
  clock : Q;
  key : Z;
  stream_ended : bool
}.

(** Lines 72 to 78. *)
Fixpoint load_gallery (env : Environment) (files : list string)
  : list Encoding :=
  match files with
  | [] => []
  | file :: rest =>
      if is_image_name file then
        match image_encodings env (friends_dir env ++ "/" ++ file) with
        | enc :: _ => enc :: load_gallery env rest
        | [] => load_gallery env rest
        end
      else load_gallery env rest
  end.

(** The body of [while True]; the result is true when the loop is left. *)
Definition loop_body (known : list Encoding) (t : Tick) : M World bool :=
  (if stream_ended t then on_ctl (modify track_ended) else ret tt) ;;
  if negb (read_ok t) then ret true
  else
    frame_taken ;;
    let results := detect (read_frame t) in
    let visitor := fst (classify_visitor known (read_frame t) results) in
    let now := clock t in
    o <- overlay_text visitor now ;;
    imshow o ;;
    on_ctl (event_handling visitor now) ;;
    ret (Z.land (key t) 255 =? 27)%Z.

(** The loop on the answers of the machine; false when they are used up and
    the loop is still going. *)
Fixpoint main_loop (known : list Encoding) (ticks : list Tick)
  : M World bool :=
  match ticks with
  | [] => ret false
  | t :: rest =>
      quit <- loop_body known t ;;
      if quit then ret true else main_loop known rest
  end.

(** Lines 58 to 190; true when the script ran to its last line. *)
Definition script (env : Environment) (ticks : list Tick) : M World bool :=
  on_ctl (play_track "background" (-1)%Z) ;;
  if negb (friends_isdir env) then
    print ("ERROR: friends directory not found:" ++ " " ++ friends_dir env) ;;
    sys_exit 1%Z
  else
    let known := load_gallery env (friends_listdir env) in
    if negb (camera_opened env) then
      print "ERROR: could not open webcam" ;;
      sys_exit 1%Z
    else
      print "Press ESC to quit." ;;
      left <- main_loop known ticks ;;
      if left then
        on_ctl music_stop ;;
        on_ctl mixer_quit ;;
        ret true
      else ret false.

Definition initial_world : World := mkWorld initial_state [] [] 0.

Definition run (env : Environment) (ticks : list Tick) : Res bool * World :=
  script env ticks initial_world.

End Script.

(** The exit status of the process: that of [sys.exit], 1 after any other
    uncaught exception, 0 after the last line; none while the loop runs. *)
Definition exit_status (r : Res bool) : option Z :=
  match r with
  | Ok true => Some 0%Z
  | Ok false => None
  | Raise (SystemExit code) => Some code
  | Raise (KeyError _) => Some 1%Z
  end.

(* ------------------------------------------------------------------------- *)
(** ** The mixer calls read without the channel's own bookkeeping             *)
(* ------------------------------------------------------------------------- *)

(** A device on which only an explicit [stop] (or [quit]) silences a stream:
    [load] merely selects a file and [play] adds the selected file to the
    streams that sound.  The pair is the selected file and those streams. *)
Definition device_step (d : option string * list string) (c : MixerCall)
  : option string * list string :=
  match c with
  | MusicStop => (fst d, [])
  | MusicLoad file => (Some file, snd d)
  | MusicPlay _ _ =>
      match fst d with
      | Some file => (fst d, file :: snd d)
      | None => d
      end
  | MixerQuit => (None, [])
  end.

Definition sounding (log : list MixerCall) : list string :=
  snd (fold_left device_step log (None, [])).

(** Every [load] comes right after a [stop], every [play] right after a
    [load]; [prev] is the call before the first one of [log]. *)
Fixpoint stop_first (prev : option MixerCall) (log : list MixerCall) : bool :=
  match log with
  | [] => true
  | c :: rest =>
      (match c, prev with
       | MusicLoad _, Some MusicStop => true
       | MusicLoad _, _ => false
       | MusicPlay _ _, Some (MusicLoad _) => true
       | MusicPlay _ _, _ => false
       | _, _ => true
       end && stop_first (Some c) rest)%bool
  end.

(* ------------------------------------------------------------------------- *)
(** ** What holds between the globals and the channel                         *)
(* ------------------------------------------------------------------------- *)

(** The [loop] argument each track is played with: lines 58, 166 and 176
    pass [-1] for the background, line 171 leaves the default. *)
Definition expected_loops (name : string) : Z :=
  if String.eqb name "background" then (-1)%Z else 0%Z.

(** The offset [play_sound] starts each file at. *)
Definition expected_start (file : string) : Q :=
  if String.eqb file "toto_africa.mp3" then 0%Q else 27%Q.

(** [current_track] names the file the channel holds and the way it was
    started, and the call log loads only after a stop. *)
Record coherent (s : State) : Prop := mkCoherent {
  coh_track :
    exists name file,
      current_track s = Some name
      /\ assoc sound_files name = Some file
      /\ loaded (mixer s) = Some file
      /\ loops (mixer s) = expected_loops name
      /\ start_pos (mixer s) = expected_start file;
  coh_log : stop_first None (audio_log s) = true
}.

(** A statement keeps [P], whether it returns or raises. *)
Definition preserves {A} (P : State -> Prop) (m : M State A) : Prop :=
  forall s, P s -> P (snd (m s)).

(** A statement returns, from every state. *)
Definition succeeds {S A} (m : M S A) : Prop :=
  forall s, exists a s', m s = (Ok a, s').

(** The iteration is the last one: the frame could not be read, or the low
    byte of the key code is 27 (escape). *)
Definition quits `{V : Vision} (t : Tick) : bool :=
  (negb (read_ok t) || (Z.land (key t) 255 =? 27)%Z)%bool.

(* ------------------------------------------------------------------------- *)
(** ** A small instance, to run the model                                     *)
(* ------------------------------------------------------------------------- *)

(** Frames are numbered; frame [n] shows the faces [n; n+1] when [n] is
    even and no face otherwise; a face matches a gallery entry when they are
    equal.  The class indices are those of the COCO labels used below. *)
Definition demo_names (c : nat) : string :=
  match c with
  | 0 => "person"
  | 16 => "dog"
  | 24 => "backpack"
  | 26 => "handbag"
  | _ => "chair"
  end.

#[local] Instance demo_vision : Vision := {|
  Frame := nat;
  Location := nat;
  Encoding := nat;
  names := demo_names;
  detect := fun f => [mkResult (map mkBox (seq 0 (f mod 3)))];
  cvtColor := fun f => f;
  face_locations := fun f => if Nat.even f then [f; S f] else [];
  face_encodings := fun _ locs => locs;
  compare_faces := fun known enc => map (Nat.eqb enc) known
|}.

(** Three machines: no friends directory; a directory but no camera; a
    directory with one picture and a camera.  And two iterations, the second
    of which sees the escape key. *)
Definition demo_no_dir : @Environment demo_vision :=
  mkEnvironment "/app/friends" false [] (fun _ => []) true.

Definition demo_no_camera : @Environment demo_vision :=
  mkEnvironment "/app/friends" true [] (fun _ => []) false.

Definition demo_ready : @Environment demo_vision :=
  mkEnvironment "/app/friends" true ["ann.jpg"] (fun _ => [3]) true.

Definition demo_ticks : list (@Tick demo_vision) :=
  [ mkTick true 2 (1 # 4)%Q (-1)%Z false;
    mkTick true 0 (3 # 4)%Q 27%Z true ].

(* ========================================================================= *)
(** * Properties                                                              *)
(* ========================================================================= *)

Open Scope list_scope.

(* ------------------------------------------------------------------------- *)
(** ** Membership tests                                                       *)
(* ------------------------------------------------------------------------- *)

Lemma str_in_In x l : str_in x l = true <-> In x l.
Proof.
  unfold str_in. rewrite existsb_exists. split.
  - intros [y [Hy He]]. apply String.eqb_eq in He. now subst.
  - intros Hx. exists x. split; [assumption | apply String.eqb_refl].
Qed.

Lemma str_in_not_In x l : str_in x l = false <-> ~ In x l.
Proof.
  rewrite <- str_in_In. destruct (str_in x l); split; intros; congruence.
Qed.

Lemma true_in_In l : true_in l = true <-> In true l.
Proof.
  unfold true_in. rewrite existsb_exists. split.
  - intros [b [Hb Ht]]. now subst.
  - intros Ht. now exists true.
Qed.

(* ------------------------------------------------------------------------- *)
(** ** The classifier                                                         *)
(* ------------------------------------------------------------------------- *)

Section ClassifierFacts.
Context `{V : Vision}.

Lemma friend_scan_found known encs :
  fst (friend_scan known encs) = true <->
  exists enc, In enc encs /\ In true (compare_faces known enc).
Proof.
  induction encs as [|enc rest IH]; simpl.
  - split; [discriminate | intros [e [[] _]]].
  - destruct (true_in (compare_faces known enc)) eqn:Hc.
    + split; [intros _ | reflexivity].
      exists enc. split; [now left | now apply true_in_In].
    + destruct (friend_scan known rest) as [found calls]. simpl in *.
      rewrite IH. split.
      * intros [e [Hin Ht]]. exists e. split; [now right | assumption].
      * intros [e [[Heq | Hin] Ht]].
        -- subst e. apply true_in_In in Ht. congruence.
        -- now exists e.
Qed.

Lemma cue_scan_spec detected :
  cue_scan detected = true <->
  exists label, In label detected /\ In label delivery_cues.
Proof.
  induction detected as [|label rest IH].
  - split; [discriminate | intros [l [[] _]]].
  - cbn [cue_scan]. destruct (str_in label delivery_cues) eqn:Hc.
    + split; [intros _ | reflexivity].
      exists label. split; [apply in_eq | now apply str_in_In].
    + rewrite IH. split.
      * intros [l [Hin Hl]]. exists l. split; [now apply in_cons | assumption].
      * intros [l [Hin Hl]]. destruct Hin as [Heq | Hin].
        -- subst l. apply str_in_In in Hl. congruence.
        -- now exists l.
Qed.

(** The label returned once a person is among the detections: decided by
    the face scan first, by the cue scan second. *)
Lemma classify_with_person known frame results :
  In "person" (detected_labels results) ->
  fst (classify_visitor known frame results) =
    if fst (friend_scan known (frame_encodings frame)) then "friend"
    else if cue_scan (detected_labels results) then "delivery"
    else "thief".
Proof.
  intros Hp. apply str_in_In in Hp.
  unfold classify_visitor, frame_encodings. rewrite Hp. simpl negb. cbv iota.
  destruct (friend_scan known _) as [found cmp]. simpl fst.
  destruct found; [reflexivity |].
  destruct (cue_scan _); reflexivity.
Qed.

(** The classifier returns one of the four categories. *)
Lemma classify_in_categories known frame results :
  In (fst (classify_visitor known frame results)) categories.
Proof.
  unfold classify_visitor, categories.
  destruct (negb _); [simpl; tauto |].
  destruct (friend_scan known _) as [found cmp].
  destruct found; [simpl; tauto |].
  destruct (cue_scan _); simpl; tauto.
Qed.

(** C1. When the labels extracted from the detection results do not contain
    "person", [classify_visitor] returns "noperson" whatever the other labels
    are, and it makes no call on the face services. *)
Theorem classify_noperson known frame results :
  ~ In "person" (detected_labels results) ->
  classify_visitor known frame results = ("noperson", []).
Proof.
  intros Hp. apply str_in_not_In in Hp.
  unfold classify_visitor. now rewrite Hp.
Qed.

(** C2. When "person" is among the labels and some face found in the frame
    matches a gallery encoding, [classify_visitor] returns "friend", whatever
    the other labels are (delivery cues included). *)
Theorem classify_friend known frame results :
  In "person" (detected_labels results) ->
  face_match known frame ->
  fst (classify_visitor known frame results) = "friend".
Proof.
  intros Hp Hm. rewrite (classify_with_person _ _ _ Hp).
  apply friend_scan_found in Hm. now rewrite Hm.
Qed.

(** C3. When "person" is among the labels and no face of the frame matches
    the gallery, [classify_visitor] returns "delivery" exactly when some label
    is one of handbag, backpack, helmet, suit, hat, and "thief" otherwise. *)
Theorem classify_delivery_or_thief known frame results :
  In "person" (detected_labels results) ->
  ~ face_match known frame ->
  let cue := exists label, In label (detected_labels results)
                           /\ In label ["handbag"; "backpack"; "helmet";
                                        "suit"; "hat"] in
  (fst (classify_visitor known frame results) = "delivery" <-> cue)
  /\ (~ cue -> fst (classify_visitor known frame results) = "thief").
Proof.
  intros Hp Hm cue. rewrite (classify_with_person _ _ _ Hp).
  destruct (fst (friend_scan known (frame_encodings frame))) eqn:Hf.
  - exfalso. apply Hm. now apply friend_scan_found.
  - pose proof (cue_scan_spec (detected_labels results)) as Hc.
    change (cue_scan (detected_labels results) = true <-> cue) in Hc.
    destruct (cue_scan (detected_labels results)).
    + split; [split; [intros _; now apply Hc | reflexivity] |].
      intros Hn. exfalso. apply Hn. now apply Hc.
    + split; [| reflexivity]. split; [discriminate |].
      intros Hcue. apply Hc in Hcue. discriminate.
Qed.

End ClassifierFacts.

(** A dog and a backpack, nobody in the picture. *)
Lemma classify_noperson_witness :
  ~ In "person" (detected_labels [mkResult [mkBox 16; mkBox 24]])
  /\ classify_visitor [2] 2 [mkResult [mkBox 16; mkBox 24]]
     = ("noperson", []).
Proof.
  assert (H : ~ In "person" (detected_labels [mkResult [mkBox 16; mkBox 24]])).
  { apply str_in_not_In. reflexivity. }
  split; [exact H | exact (@classify_noperson demo_vision [2] 2 _ H)].
Defined.

(** A known face carrying a backpack is still a friend. *)
Lemma classify_friend_witness :
  fst (classify_visitor [3] 2 [mkResult [mkBox 24; mkBox 0]]) = "friend".
Proof.
  apply (@classify_friend demo_vision [3] 2 [mkResult [mkBox 24; mkBox 0]]).
  - apply str_in_In. reflexivity.
  - exists 3. split; simpl; tauto.
Defined.

(** An unknown face with a handbag: a delivery. *)
Lemma classify_delivery_or_thief_witness :
  fst (classify_visitor [7] 2 [mkResult [mkBox 0; mkBox 26]]) = "delivery".
Proof.
  apply (@classify_delivery_or_thief demo_vision [7] 2
           [mkResult [mkBox 0; mkBox 26]]).
  - apply str_in_In. reflexivity.
  - intros [enc [Hin Ht]]. simpl in Hin.
    destruct Hin as [<- | [<- | []]]; simpl in Ht;
      destruct Ht as [Ht | []]; discriminate.
  - exists "handbag". split; simpl; tauto.
Defined.

(* ------------------------------------------------------------------------- *)
(** ** Running statements                                                     *)
(* ------------------------------------------------------------------------- *)

Lemma bind_ok {S A B} (m : M S A) (k : A -> M S B) s a s' :
  m s = (Ok a, s') -> bind m k s = k a s'.
Proof. intros H. unfold bind. now rewrite H. Qed.

Lemma bind_raise {S A B} (m : M S A) (k : A -> M S B) s e s' :
  m s = (Raise e, s') -> bind m k s = (Raise e, s').
Proof. intros H. unfold bind. now rewrite H. Qed.

Lemma opt_str_neq_true x y : opt_str_neq x y = true <-> x <> y.
Proof.
  destruct x as [a|], y as [b|]; simpl; try (split; congruence).
  destruct (String.eqb_spec a b); simpl; split; congruence.
Qed.

Lemma opt_str_neq_false x y : opt_str_neq x y = false <-> x = y.
Proof.
  destruct (opt_str_neq x y) eqn:E.
  - apply opt_str_neq_true in E. split; [discriminate | contradiction].
  - split; [intros _ | reflexivity].
    destruct x as [a|], y as [b|]; simpl in E; try discriminate; auto.
    destruct (String.eqb_spec a b); [now subst | discriminate].
Qed.

Lemma Qle_bool_elapsed (now started : Q) :
  (started <= now)%Q -> Qle_bool (inject_Z 0) (now - started)%Q = true.
Proof.
  intros H. apply Qle_bool_iff. change (inject_Z 0) with 0%Q.
  unfold Qminus. rewrite <- (Qplus_opp_r started).
  apply Qplus_le_compat; [assumption | apply Qle_refl].
Qed.

#[local] Arguments opt_str_neq : simpl never.
#[local] Arguments Qle_bool : simpl never.

(* ------------------------------------------------------------------------- *)
(** ** Sound helpers                                                          *)
(* ------------------------------------------------------------------------- *)

(** [play_sound] always loads the file and plays it from its offset: 27.0
    for every file but the background, the given [start] for that one. *)
Lemma play_sound_run file loop start s :
  play_sound file loop start s =
  let st := if String.eqb file "toto_africa.mp3" then start else 27%Q in
  (Ok tt, mkState (mkMixer (Some file) true loop st)
                  (audio_log s ++ [MusicLoad file; MusicPlay loop st])
                  (current_track s) (last_event s)
                  (event_start_time s) (event_played s)).
Proof.
  unfold play_sound.
  destruct (String.eqb file "toto_africa.mp3"); simpl;
    unfold bind, music_load, music_play, mixer_call, modify; simpl;
    now rewrite <- app_assoc.
Qed.

(** [play_track] on a key of [sound_files]: stop, load, play, and only then
    the assignment to [current_track]. *)
Lemma play_track_run name loop file s :
  assoc sound_files name = Some file ->
  play_track name loop s =
  (Ok tt, mkState (mkMixer (Some file) true loop (expected_start file))
                  (audio_log s ++ [MusicStop; MusicLoad file;
                                   MusicPlay loop (expected_start file)])
                  (Some name) (last_event s)
                  (event_start_time s) (event_played s)).
Proof.
  intros Hf. unfold play_track, dict_get.
  rewrite Hf.
  unfold bind at 1. unfold music_stop, mixer_call, modify.
  unfold bind at 1. unfold ret at 1.
  unfold bind at 1. rewrite play_sound_run. cbv zeta.
  unfold set_current_track, modify, expected_start. simpl.
  now rewrite <- app_assoc.
Qed.

(** [play_track] on any other name: the stop is made, then [KeyError]. *)
Lemma play_track_missing name loop s :
  assoc sound_files name = None ->
  play_track name loop s =
  (Raise (KeyError name),
   mkState (mixer_apply MusicStop (mixer s)) (audio_log s ++ [MusicStop])
           (current_track s) (last_event s)
           (event_start_time s) (event_played s)).
Proof.
  intros Hf. unfold play_track, dict_get. rewrite Hf. reflexivity.
Qed.

(** C10. [play_sound] starts every file other than the background file at
    27.0 seconds and the background file at the [start] it is given; through
    [play_track], which passes the default 0.0, the background therefore
    starts at its beginning and each of the friend, thief and delivery tracks
    27 seconds into its file. *)
Theorem one_shots_start_at_27 file loop start s :
  (file <> "toto_africa.mp3" ->
   audio_log (snd (play_sound file loop start s))
     = audio_log s ++ [MusicLoad file; MusicPlay loop 27%Q]
   /\ start_pos (mixer (snd (play_sound file loop start s))) = 27%Q)
  /\ audio_log (snd (play_sound "toto_africa.mp3" loop start s))
     = audio_log s ++ [MusicLoad "toto_africa.mp3"; MusicPlay loop start]
  /\ audio_log (snd (play_track "background" loop s))
     = audio_log s ++ [MusicStop; MusicLoad "toto_africa.mp3";
                       MusicPlay loop 0%Q]
  /\ (forall name, In name ["friend"; "thief"; "delivery"] ->
      exists f, assoc sound_files name = Some f
                /\ f <> "toto_africa.mp3"
                /\ audio_log (snd (play_track name loop s))
                   = audio_log s ++ [MusicStop; MusicLoad f;
                                     MusicPlay loop 27%Q]).
Proof.
  repeat split.
  - rewrite play_sound_run. apply String.eqb_neq in H. now rewrite H.
  - rewrite play_sound_run. apply String.eqb_neq in H. now rewrite H.
  - now rewrite play_sound_run.
  - now rewrite (play_track_run "background" loop "toto_africa.mp3").
  - intros name Hn. simpl in Hn.
    destruct Hn as [<- | [<- | [<- | []]]];
      eexists; (split; [reflexivity |]); (split; [discriminate |]);
      now erewrite play_track_run by reflexivity.
Qed.

Lemma one_shots_start_at_27_witness :
  audio_log (snd (play_sound "dr_alban.mp3" 0 0 initial_state))
  = [MusicLoad "dr_alban.mp3"; MusicPlay 0 27%Q].
Proof.
  apply (one_shots_start_at_27 "dr_alban.mp3" 0 0 initial_state).
  discriminate.
Defined.

(* ------------------------------------------------------------------------- *)
(** ** The four parts of the event handling                                   *)
(* ------------------------------------------------------------------------- *)

Lemma category_change_changed visitor now s :
  last_event s <> Some visitor ->
  category_change visitor now s =
  (Ok tt, mkState (mixer_apply MusicStop (mixer s))
                  (audio_log s ++ [MusicStop])
                  (current_track s) (Some visitor) now false).
Proof.
  intros H. unfold category_change, bind, gets.
  assert (E : opt_str_neq (Some visitor) (last_event s) = true)
    by (apply opt_str_neq_true; congruence).
  now rewrite E.
Qed.

Lemma category_change_same visitor now s :
  last_event s = Some visitor ->
  category_change visitor now s = (Ok tt, s).
Proof.
  intros H. unfold category_change, bind, gets.
  assert (E : opt_str_neq (Some visitor) (last_event s) = false)
    by (apply opt_str_neq_false; congruence).
  now rewrite E.
Qed.

Lemma category_change_ok visitor now s :
  fst (category_change visitor now s) = Ok tt
  /\ last_event (snd (category_change visitor now s)) = Some visitor.
Proof.
  destruct (opt_str_neq (Some visitor) (last_event s)) eqn:E.
  - apply opt_str_neq_true in E.
    rewrite category_change_changed by congruence. now split.
  - apply opt_str_neq_false in E.
    rewrite category_change_same by congruence. now split.
Qed.

Lemma keep_background_restart s :
  current_track s <> Some "background" \/ busy (mixer s) = false ->
  keep_background s = play_track "background" (-1) s.
Proof.
  intros H. unfold keep_background, bind at 1, gets at 1.
  destruct (opt_str_neq (current_track s) (Some "background")) eqn:E.
  - reflexivity.
  - apply opt_str_neq_false in E.
    destruct H as [H | H]; [contradiction |].
    unfold bind, music_get_busy, gets, ret. now rewrite H.
Qed.

Lemma keep_background_idle s :
  current_track s = Some "background" -> busy (mixer s) = true ->
  keep_background s = (Ok tt, s).
Proof.
  intros Ht Hb. unfold keep_background, bind at 1, gets at 1.
  apply opt_str_neq_false in Ht. rewrite Ht.
  unfold bind, music_get_busy, gets, ret. now rewrite Hb.
Qed.

Lemma start_one_shot_due visitor now d s :
  event_played s = false ->
  assoc delays visitor = Some d ->
  Qle_bool (inject_Z d) (now - event_start_time s)%Q = true ->
  start_one_shot visitor now s =
  (play_track visitor 0 ;; set_event_played true) s.
Proof.
  intros Hp Hd Hq.
  unfold start_one_shot, bind at 1, gets at 1. rewrite Hp. simpl negb.
  cbv iota. unfold dict_get. rewrite Hd.
  unfold bind at 1. unfold bind at 1. unfold gets at 1.
  unfold bind at 1. unfold ret at 1. unfold ret at 1.
  now rewrite Hq.
Qed.

Lemma start_one_shot_played visitor now s :
  event_played s = true -> start_one_shot visitor now s = (Ok tt, s).
Proof.
  intros Hp. unfold start_one_shot, bind, gets, ret. now rewrite Hp.
Qed.

Lemma resume_background_finished now s :
  event_played s = true -> busy (mixer s) = false ->
  resume_background now s =
  (play_track "background" (-1) ;;
   set_event_played false ;;
   set_event_start_time now) s.
Proof.
  intros Hp Hb. unfold resume_background, bind at 1, gets at 1. rewrite Hp.
  unfold bind at 1. unfold bind at 1. unfold music_get_busy, gets, ret.
  now rewrite Hb.
Qed.

Lemma resume_background_waits now s :
  event_played s = false \/ busy (mixer s) = true ->
  resume_background now s = (Ok tt, s).
Proof.
  intros H. unfold resume_background, music_get_busy, bind, gets, ret.
  destruct (event_played s); [| reflexivity].
  destruct H as [H | H]; [discriminate |]. cbv beta. now rewrite H.
Qed.

(** The decision is taken on the state the change branch leaves. *)
Lemma event_handling_phases visitor now s :
  event_handling visitor now s =
  (if String.eqb visitor "noperson" then keep_background
   else start_one_shot visitor now ;; resume_background now)
    (snd (category_change visitor now s)).
Proof.
  unfold event_handling.
  destruct (category_change_ok visitor now s) as [Hok _].
  destruct (category_change visitor now s) as [r s1] eqn:E.
  simpl in Hok. subst r. now rewrite (bind_ok _ _ _ _ _ E).
Qed.

(** A tick whose visitor is new and is a person: the stop of the change
    branch, then the one-shot, which is still playing at line 175. *)
Lemma event_handling_new_visitor visitor file now s :
  In visitor ["friend"; "delivery"; "thief"] ->
  assoc sound_files visitor = Some file ->
  last_event s <> Some visitor ->
  event_handling visitor now s =
  (Ok tt, mkState (mkMixer (Some file) true 0 (expected_start file))
                  (audio_log s ++ [MusicStop; MusicStop; MusicLoad file;
                                   MusicPlay 0 (expected_start file)])
                  (Some visitor) (Some visitor) now true).
Proof.
  intros Hv Hf Hl. rewrite event_handling_phases.
  rewrite category_change_changed by assumption. cbn [snd].
  assert (Hn : String.eqb visitor "noperson" = false).
  { simpl in Hv. destruct Hv as [<- | [<- | [<- | []]]]; reflexivity. }
  assert (Hd : assoc delays visitor = Some 0%Z).
  { simpl in Hv. destruct Hv as [<- | [<- | [<- | []]]]; reflexivity. }
  rewrite Hn.
  erewrite bind_ok.
  2:{ rewrite (start_one_shot_due visitor now 0%Z) by
        (try reflexivity; try exact Hd;
         apply Qle_bool_elapsed, Qle_refl).
      erewrite bind_ok by (apply play_track_run; exact Hf).
      reflexivity. }
  rewrite resume_background_waits by (right; reflexivity).
  cbn. now rewrite <- app_assoc.
Qed.

(** A tick on which nobody is seen any more: the stop of the change branch,
    then the background from its beginning. *)
Lemma event_handling_new_noperson now s :
  last_event s <> Some "noperson" ->
  event_handling "noperson" now s =
  (Ok tt, mkState (mkMixer (Some "toto_africa.mp3") true (-1) 0%Q)
                  (audio_log s ++ [MusicStop; MusicStop;
                                   MusicLoad "toto_africa.mp3";
                                   MusicPlay (-1) 0%Q])
                  (Some "background") (Some "noperson") now false).
Proof.
  intros Hl. rewrite event_handling_phases.
  rewrite category_change_changed by assumption. cbn [snd].
  change (String.eqb "noperson" "noperson") with true. cbv iota.
  rewrite keep_background_restart by (right; reflexivity).
  rewrite (play_track_run "background" (-1) "toto_africa.mp3") by reflexivity.
  cbn. now rewrite <- app_assoc.
Qed.

(** C4. On a tick whose category differs from [last_event], the change
    branch runs first: it leaves [last_event] at the new category,
    [event_start_time] at [now], [event_played] false and the channel
    stopped, and the playback decision of the tick is taken from that state.
    At the end of the tick [last_event] is the new category,
    [event_start_time] is [now], and the calls made on the mixer are that
    stop followed by those of the track started. *)
Theorem category_change_first visitor now s :
  In visitor categories ->
  last_event s <> Some visitor ->
  let s1 := snd (category_change visitor now s) in
  let s' := snd (event_handling visitor now s) in
  (last_event s1 = Some visitor /\ event_start_time s1 = now
   /\ event_played s1 = false /\ busy (mixer s1) = false
   /\ audio_log s1 = audio_log s ++ [MusicStop])
  /\ event_handling visitor now s =
     (if String.eqb visitor "noperson" then keep_background
      else start_one_shot visitor now ;; resume_background now) s1
  /\ fst (event_handling visitor now s) = Ok tt
  /\ last_event s' = Some visitor
  /\ event_start_time s' = now
  /\ exists calls, audio_log s' = audio_log s ++ MusicStop :: calls.
Proof.
  intros Hv Hl s1 s'. subst s1 s'.
  split; [| split].
  - rewrite category_change_changed by assumption. cbn. tauto.
  - apply event_handling_phases.
  - simpl in Hv. destruct Hv as [<- | [<- | [<- | [<- | []]]]].
    + erewrite event_handling_new_visitor
        by (try reflexivity; try assumption; simpl; tauto).
      cbn. repeat split. eexists. reflexivity.
    + erewrite event_handling_new_visitor
        by (try reflexivity; try assumption; simpl; tauto).
      cbn. repeat split. eexists. reflexivity.
    + erewrite event_handling_new_visitor
        by (try reflexivity; try assumption; simpl; tauto).
      cbn. repeat split. eexists. reflexivity.
    + rewrite event_handling_new_noperson by assumption.
      cbn. repeat split. eexists. reflexivity.
Qed.

(** The first frame with a person in it, right after start-up. *)
Lemma category_change_first_witness :
  event_played (snd (category_change "thief" 5%Q initial_state)) = false
  /\ audio_log (snd (category_change "thief" 5%Q initial_state))
     = [MusicStop].
Proof.
  assert (Hv : In "thief" categories) by (simpl; tauto).
  assert (Hl : last_event initial_state <> Some "thief") by discriminate.
  destruct (category_change_first "thief" 5%Q initial_state Hv Hl)
    as [[_ [_ [Hp [_ Ha]]]] _].
  split; [exact Hp | exact Ha].
Defined.

(* ------------------------------------------------------------------------- *)
(** ** What every statement of the controller keeps                           *)
(* ------------------------------------------------------------------------- *)

Lemma preserves_ret {A} P (a : A) : preserves P (ret a).
Proof. intros s H. exact H. Qed.

Lemma preserves_gets {A} P (f : State -> A) : preserves P (gets f).
Proof. intros s H. exact H. Qed.

Lemma preserves_dict_get {A} P (d : Dict A) k : preserves P (dict_get d k).
Proof. intros s H. unfold dict_get. destruct (assoc d k); exact H. Qed.

Lemma preserves_bind {A B} P (m : M State A) (k : A -> M State B) :
  preserves P m -> (forall a, preserves P (k a)) -> preserves P (bind m k).
Proof.
  intros Hm Hk s H. specialize (Hm s H). unfold bind.
  destruct (m s) as [[a | e] s1]; simpl in Hm.
  - now apply Hk.
  - exact Hm.
Qed.

Lemma preserves_if {A} P (b : bool) (m1 m2 : M State A) :
  preserves P m1 -> preserves P m2 -> preserves P (if b then m1 else m2).
Proof. now destruct b. Qed.

Create HintDb keeps discriminated.
#[local] Hint Resolve preserves_ret preserves_gets preserves_dict_get
  preserves_if : keeps.
#[local] Hint Extern 2 (preserves _ (bind _ _)) =>
  apply preserves_bind; [| intro] : keeps.

Lemma stop_first_app_stop prev log rest :
  stop_first prev (log ++ MusicStop :: rest)
  = (stop_first prev log && stop_first (Some MusicStop) rest)%bool.
Proof.
  revert prev. induction log as [|c log IH]; intros prev.
  - simpl. now destruct prev as [[]|].
  - cbn [app stop_first]. rewrite IH. now rewrite andb_assoc.
Qed.

Lemma coherent_fields s t :
  mixer t = mixer s -> audio_log t = audio_log s ->
  current_track t = current_track s ->
  coherent s -> coherent t.
Proof.
  intros Hm Ha Hc [Ht Hl]. split.
  - now rewrite Hm, Hc.
  - now rewrite Ha.
Qed.

Lemma keeps_set_last_event e : preserves coherent (set_last_event e).
Proof. intros s H. now apply (coherent_fields s). Qed.

Lemma keeps_set_event_start_time t :
  preserves coherent (set_event_start_time t).
Proof. intros s H. now apply (coherent_fields s). Qed.

Lemma keeps_set_event_played b : preserves coherent (set_event_played b).
Proof. intros s H. now apply (coherent_fields s). Qed.

Lemma keeps_track_ended s : coherent s -> coherent (track_ended s).
Proof.
  intros [Ht Hl]. split; [| exact Hl].
  destruct Ht as (name & file & H1 & H2 & H3 & H4 & H5).
  exists name, file. cbn. tauto.
Qed.

Lemma keeps_music_stop : preserves coherent music_stop.
Proof.
  intros s [Ht Hl]. split.
  - destruct Ht as (name & file & H1 & H2 & H3 & H4 & H5).
    exists name, file. cbn. tauto.
  - cbn. rewrite stop_first_app_stop. now rewrite Hl.
Qed.

(** After [play_track] the globals and the channel agree, whatever they
    were before, provided the log was in order. *)
Lemma play_track_coherent name s :
  stop_first None (audio_log s) = true ->
  (exists file, assoc sound_files name = Some file) ->
  coherent (snd (play_track name (expected_loops name) s)).
Proof.
  intros Hl [file Hf]. rewrite (play_track_run _ _ _ _ Hf). split.
  - exists name, file. cbn. tauto.
  - cbn. rewrite stop_first_app_stop, Hl. reflexivity.
Qed.

Lemma keeps_play_track name :
  preserves coherent (play_track name (expected_loops name)).
Proof.
  intros s H. destruct (assoc sound_files name) as [file|] eqn:Hf.
  - apply play_track_coherent; [apply H | now exists file].
  - rewrite play_track_missing by assumption. apply (keeps_music_stop s H).
Qed.

#[local] Hint Resolve keeps_set_last_event keeps_set_event_start_time
  keeps_set_event_played keeps_music_stop : keeps.

Lemma keeps_category_change visitor now :
  preserves coherent (category_change visitor now).
Proof. unfold category_change. auto 10 with keeps. Qed.

Lemma keeps_keep_background : preserves coherent keep_background.
Proof.
  unfold keep_background, music_get_busy.
  pose proof (keeps_play_track "background"). auto 10 with keeps.
Qed.

Lemma keeps_start_one_shot visitor now :
  visitor <> "background" ->
  preserves coherent (start_one_shot visitor now).
Proof.
  intros Hv. unfold start_one_shot.
  pose proof (keeps_play_track visitor) as Hp.
  unfold expected_loops in Hp. apply String.eqb_neq in Hv. rewrite Hv in Hp.
  auto 10 with keeps.
Qed.

Lemma keeps_resume_background now :
  preserves coherent (resume_background now).
Proof.
  unfold resume_background, music_get_busy.
  pose proof (keeps_play_track "background"). auto 10 with keeps.
Qed.

Lemma keeps_event_handling visitor now :
  In visitor categories ->
  preserves coherent (event_handling visitor now).
Proof.
  intros Hv. unfold event_handling.
  assert (Hb : visitor <> "background").
  { simpl in Hv. destruct Hv as [<- | [<- | [<- | [<- | []]]]]; discriminate. }
  pose proof (keeps_category_change visitor now).
  pose proof keeps_keep_background.
  pose proof (keeps_start_one_shot visitor now Hb).
  pose proof (keeps_resume_background now).
  auto 10 with keeps.
Qed.

Lemma reachable_coherent s : reachable s -> coherent s.
Proof.
  induction 1 as [| s visitor now Hr IH Hv | s Hr IH].
  - apply (play_track_coherent "background"); [reflexivity |].
    now exists "toto_africa.mp3".
  - now apply keeps_event_handling.
  - now apply keeps_track_ended.
Qed.

(* ------------------------------------------------------------------------- *)
(** ** Nobody at the door                                                     *)
(* ------------------------------------------------------------------------- *)

(** The change branch leaves [current_track] alone and never starts the
    channel. *)
Lemma category_change_channel visitor now s :
  current_track (snd (category_change visitor now s)) = current_track s
  /\ (busy (mixer s) = false ->
      busy (mixer (snd (category_change visitor now s))) = false).
Proof.
  destruct (opt_str_neq (Some visitor) (last_event s)) eqn:E.
  - apply opt_str_neq_true in E.
    rewrite category_change_changed by congruence. now split.
  - apply opt_str_neq_false in E.
    rewrite category_change_same by congruence. now split.
Qed.

(** C5. After a tick whose category is "noperson", taken from any state the
    controller can be in, [current_track] is "background" and the channel
    plays the background file with [loop=-1]; and when, before the tick,
    the background was not the current track or the mixer was not busy, the
    tick started it anew: stop, load, play with [loop=-1]. *)
Theorem noperson_keeps_background now s :
  reachable s ->
  let s1 := snd (category_change "noperson" now s) in
  let s' := snd (event_handling "noperson" now s) in
  fst (event_handling "noperson" now s) = Ok tt
  /\ current_track s' = Some "background"
  /\ mixer s' = mkMixer (Some "toto_africa.mp3") true (-1) 0%Q
  /\ (current_track s <> Some "background" \/ busy (mixer s) = false ->
      audio_log s' = audio_log s1 ++ [MusicStop; MusicLoad "toto_africa.mp3";
                                      MusicPlay (-1) 0%Q]).
Proof.
  intros Hr s1 s'.
  assert (Hc : coherent s1)
    by (apply keeps_category_change, reachable_coherent, Hr).
  destruct (category_change_channel "noperson" now s) as [Htrack Hbusy].
  fold s1 in Htrack, Hbusy.
  assert (Hrestart :
    current_track s1 <> Some "background" \/ busy (mixer s1) = false ->
    event_handling "noperson" now s =
    (Ok tt, mkState (mkMixer (Some "toto_africa.mp3") true (-1) 0%Q)
                    (audio_log s1 ++ [MusicStop; MusicLoad "toto_africa.mp3";
                                      MusicPlay (-1) 0%Q])
                    (Some "background") (last_event s1)
                    (event_start_time s1) (event_played s1))).
  { intros H. rewrite event_handling_phases. fold s1.
    change (String.eqb "noperson" "noperson") with true. cbv iota.
    rewrite keep_background_restart by assumption.
    now rewrite (play_track_run "background" (-1) "toto_africa.mp3"). }
  destruct (opt_str_neq (current_track s1) (Some "background")) eqn:Et.
  - apply opt_str_neq_true in Et. subst s'.
    rewrite Hrestart by (now left). cbn. repeat split.
  - apply opt_str_neq_false in Et.
    destruct (busy (mixer s1)) eqn:Eb.
    + (* the background is playing: nothing to do *)
      assert (Hidle : event_handling "noperson" now s = (Ok tt, s1)).
      { rewrite event_handling_phases. fold s1.
        change (String.eqb "noperson" "noperson") with true. cbv iota.
        now apply keep_background_idle. }
      subst s'. rewrite Hidle. cbn [fst snd].
      split; [reflexivity |]. split; [exact Et |]. split.
      * destruct Hc as [(name & file & H1 & H2 & H3 & H4 & H5) _].
        rewrite Et in H1. injection H1 as <-.
        cbn in H2. injection H2 as <-.
        destruct (mixer s1) as [l b lp sp]. cbn in *. now subst.
      * intros [H | H].
        -- rewrite <- Htrack in H. contradiction.
        -- apply Hbusy in H. congruence.
    + subst s'. rewrite Hrestart by (now right). cbn. repeat split.
Qed.

(** The state left by line 58 is one the controller can be in. *)
Lemma noperson_keeps_background_witness :
  current_track
    (snd (event_handling "noperson" 3%Q
            (snd (play_track "background" (-1) initial_state))))
  = Some "background".
Proof.
  apply (noperson_keeps_background 3%Q
           (snd (play_track "background" (-1) initial_state)) reach_start).
Defined.

(* ------------------------------------------------------------------------- *)
(** ** The end of a one-shot                                                  *)
(* ------------------------------------------------------------------------- *)

Lemma start_one_shot_not_due visitor now d s :
  event_played s = false ->
  assoc delays visitor = Some d ->
  Qle_bool (inject_Z d) (now - event_start_time s)%Q = false ->
  start_one_shot visitor now s = (Ok tt, s).
Proof.
  intros Hp Hd Hq.
  unfold start_one_shot, bind at 1, gets at 1. rewrite Hp. simpl negb.
  cbv iota. unfold dict_get. rewrite Hd.
  unfold bind at 1. unfold bind at 1. unfold gets at 1.
  unfold bind at 1. unfold ret at 1. unfold ret at 1.
  now rewrite Hq.
Qed.

Lemma person_tables visitor :
  In visitor ["friend"; "delivery"; "thief"] ->
  String.eqb visitor "noperson" = false
  /\ assoc delays visitor = Some 0%Z
  /\ exists file, assoc sound_files visitor = Some file
                  /\ expected_start file = 27%Q.
Proof.
  intros Hv. simpl in Hv.
  destruct Hv as [<- | [<- | [<- | []]]];
    (split; [reflexivity |]); (split; [reflexivity |]);
    eexists; split; reflexivity.
Qed.

(** What lines 157 to 172 leave, by cases on the state before the tick. *)
Lemma before_guard visitor now s :
  In visitor ["friend"; "delivery"; "thief"] ->
  let s2 := snd ((category_change visitor now ;;
                  start_one_shot visitor now) s) in
  event_handling visitor now s = resume_background now s2
  /\ last_event s2 = Some visitor
  /\ (event_played s2 = true -> busy (mixer s2) = false ->
      s2 = s /\ last_event s = Some visitor).
Proof.
  intros Hv s2.
  destruct (person_tables visitor Hv) as (Hn & Hd & file & Hf & _).
  assert (Hplay : forall t, event_played t = false ->
            Qle_bool (inject_Z 0) (now - event_start_time t)%Q = true ->
            start_one_shot visitor now t =
            (Ok tt, mkState (mkMixer (Some file) true 0 (expected_start file))
                      (audio_log t ++ [MusicStop; MusicLoad file;
                                       MusicPlay 0 (expected_start file)])
                      (Some visitor) (last_event t)
                      (event_start_time t) true)).
  { intros t Hp Hq. rewrite (start_one_shot_due visitor now 0%Z) by assumption.
    now erewrite bind_ok by (apply play_track_run; exact Hf). }
  assert (Hrun : forall s1 r t,
            category_change visitor now s = (Ok tt, s1) ->
            start_one_shot visitor now s1 = (Ok r, t) ->
            event_handling visitor now s = resume_background now t
            /\ s2 = t).
  { intros s1 r t H1 H2. subst s2. unfold event_handling. rewrite Hn.
    rewrite (bind_ok _ _ _ _ _ H1), (bind_ok _ _ _ _ _ H1).
    rewrite (bind_ok _ _ _ _ _ H2), H2. now split. }
  destruct (opt_str_neq (Some visitor) (last_event s)) eqn:E.
  - apply opt_str_neq_true in E.
    assert (H1 := category_change_changed visitor now s).
    specialize (H1 ltac:(congruence)).
    match type of H1 with
    | _ = (_, ?s1) =>
        pose proof (Hplay s1 eq_refl
                      (Qle_bool_elapsed now now (Qle_refl now))) as H2
    end.
    destruct (Hrun _ _ _ H1 H2) as [He ->].
    split; [exact He |]. split; [reflexivity |]. cbn. discriminate.
  - apply opt_str_neq_false in E. symmetry in E.
    pose proof (category_change_same visitor now s E) as H1.
    destruct (event_played s) eqn:Ep.
    + destruct (Hrun _ _ _ H1 (start_one_shot_played visitor now s Ep))
        as [He ->].
      now repeat split.
    + destruct (Qle_bool (inject_Z 0) (now - event_start_time s)%Q) eqn:Eq.
      * destruct (Hrun _ _ _ H1 (Hplay s Ep Eq)) as [He ->].
        split; [exact He |]. split; [exact E |]. cbn. discriminate.
      * destruct (Hrun _ _ _ H1
                    (start_one_shot_not_due visitor now 0%Z s Ep Hd Eq))
          as [He ->].
        split; [exact He |]. split; [exact E |]. congruence.
Qed.

(** C6. On a tick with category friend, delivery or thief on which, at the
    test of line 175, [event_played] is true and the mixer is not busy, the
    step starts the background with [loop=-1], sets [event_played] to false
    and [event_start_time] to [now]; if the same category is seen on a later
    tick, its one-shot is started again; and the test holds only on a tick
    whose category is the one of the tick before, which lines 157 to 172
    then leave as it was. *)
Theorem one_shot_finished visitor now s :
  In visitor ["friend"; "delivery"; "thief"] ->
  let s2 := snd ((category_change visitor now ;;
                  start_one_shot visitor now) s) in
  event_played s2 = true ->
  busy (mixer s2) = false ->
  let s' := snd (event_handling visitor now s) in
  event_handling visitor now s =
    (Ok tt, mkState (mkMixer (Some "toto_africa.mp3") true (-1) 0%Q)
                    (audio_log s2 ++ [MusicStop; MusicLoad "toto_africa.mp3";
                                      MusicPlay (-1) 0%Q])
                    (Some "background") (Some visitor) now false)
  /\ (forall later, (now <= later)%Q ->
      exists file,
        assoc sound_files visitor = Some file
        /\ event_handling visitor later s' =
           (Ok tt, mkState (mkMixer (Some file) true 0 27%Q)
                           (audio_log s' ++ [MusicStop; MusicLoad file;
                                             MusicPlay 0 27%Q])
                           (Some visitor) (Some visitor) now true))
  /\ s2 = s /\ last_event s = Some visitor.
Proof.
  intros Hv s2 Hp Hb s'.
  destruct (before_guard visitor now s Hv) as (He & Hl & Hsame).
  fold s2 in He, Hl, Hsame.
  assert (Hs' : event_handling visitor now s =
    (Ok tt, mkState (mkMixer (Some "toto_africa.mp3") true (-1) 0%Q)
                    (audio_log s2 ++ [MusicStop; MusicLoad "toto_africa.mp3";
                                      MusicPlay (-1) 0%Q])
                    (Some "background") (Some visitor) now false)).
  { rewrite He, resume_background_finished by assumption.
    erewrite bind_ok
      by (apply (play_track_run "background" (-1) "toto_africa.mp3");
          reflexivity).
    cbn. now rewrite Hl. }
  split; [exact Hs' |]. split; [| exact (Hsame Hp Hb)].
  intros later Hlater.
  destruct (person_tables visitor Hv) as (Hn & Hd & file & Hf & Hst).
  exists file. split; [exact Hf |].
  subst s'. rewrite Hs'. cbn [snd].
  rewrite event_handling_phases, Hn.
  rewrite category_change_same by reflexivity. cbn [snd].
  erewrite bind_ok.
  2:{ rewrite (start_one_shot_due visitor later 0%Z) by
        (try reflexivity; try exact Hd; now apply Qle_bool_elapsed).
      erewrite bind_ok by (apply play_track_run; exact Hf).
      reflexivity. }
  rewrite resume_background_waits by (right; reflexivity).
  cbn. now rewrite Hst.
Qed.

(** The thief's track has run out while the thief is still in view. *)
Lemma one_shot_finished_witness :
  event_handling "thief" 9%Q
    (mkState (mkMixer (Some "horror-tension-suspense-322304.mp3")
                      false 0 27%Q)
             [] (Some "thief") (Some "thief") 2%Q true)
  = (Ok tt, mkState (mkMixer (Some "toto_africa.mp3") true (-1) 0%Q)
                    [MusicStop; MusicLoad "toto_africa.mp3";
                     MusicPlay (-1) 0%Q]
                    (Some "background") (Some "thief") 9%Q false).
Proof.
  apply (one_shot_finished "thief" 9%Q
           (mkState (mkMixer (Some "horror-tension-suspense-322304.mp3")
                             false 0 27%Q)
                    [] (Some "thief") (Some "thief") 2%Q true)).
  - simpl. tauto.
  - reflexivity.
  - reflexivity.
Defined.

(* ------------------------------------------------------------------------- *)
(** ** One track at a time                                                    *)
(* ------------------------------------------------------------------------- *)

Lemma stop_first_firstn n prev log :
  stop_first prev log = true -> stop_first prev (firstn n log) = true.
Proof.
  revert prev log. induction n as [|n IH]; intros prev [|c log] H;
    try reflexivity.
  cbn [firstn stop_first] in *. apply andb_true_iff in H as [Hc Hr].
  rewrite Hc. now apply IH.
Qed.

(** On a log where every load follows a stop and every play follows a load,
    even a device that never silences a stream on its own has at most one
    stream sounding. *)
Lemma stop_first_single log :
  forall prev d,
    stop_first prev log = true ->
    (length (snd d) <= 1)%nat ->
    (forall file, prev = Some (MusicLoad file) ->
                  snd d = [] /\ fst d = Some file) ->
    (prev = Some MusicStop -> snd d = []) ->
    (length (snd (fold_left device_step log d)) <= 1)%nat.
Proof.
  induction log as [|c log IH]; intros prev d Hs Hlen Hload Hstop.
  - exact Hlen.
  - cbn [fold_left]. cbn [stop_first] in Hs.
    apply andb_true_iff in Hs as [Hc Hr].
    apply (IH (Some c)); [exact Hr | | |].
    + destruct c; cbn.
      * lia.
      * exact Hlen.
      * destruct prev as [[| file | |]|]; try discriminate.
        destruct (Hload file eq_refl) as [Hnil Hsel].
        rewrite Hsel. cbn. rewrite Hnil. cbn. lia.
      * lia.
    + intros file Hf. destruct c; try discriminate.
      injection Hf as ->.
      destruct prev as [[]|]; try discriminate. cbn. now rewrite Hstop.
    + intros Hf. now destruct c.
Qed.

(** C7. In every state the controller can be in, the calls made on the
    mixer so far leave at most one stream sounding at every instant, even
    on a device where only an explicit stop silences a stream; in that log
    every load comes right after a stop and every play right after a load;
    [play_track] always calls stop first, then load and play; and a tick
    whose category changed calls stop before anything else. *)
Theorem one_track_at_a_time s :
  reachable s ->
  (forall n, length (sounding (firstn n (audio_log s))) <= 1)%nat
  /\ stop_first None (audio_log s) = true
  /\ (forall name loop,
      exists calls,
        audio_log (snd (play_track name loop s))
          = audio_log s ++ MusicStop :: calls
        /\ (calls = [] \/
            exists file start, calls = [MusicLoad file; MusicPlay loop start]))
  /\ (forall visitor now,
      In visitor categories -> last_event s <> Some visitor ->
      exists calls,
        audio_log (snd (event_handling visitor now s))
          = audio_log s ++ MusicStop :: calls).
Proof.
  intros Hr. pose proof (reachable_coherent s Hr) as [_ Hlog].
  split; [| split; [exact Hlog | split]].
  - intros n. unfold sounding.
    apply (stop_first_single _ None);
      [now apply stop_first_firstn | cbn; lia | discriminate | discriminate].
  - intros name loop.
    destruct (assoc sound_files name) as [file|] eqn:Hf.
    + rewrite (play_track_run _ _ _ _ Hf). cbn. eexists. split; [reflexivity |].
      right. now exists file, (expected_start file).
    + rewrite play_track_missing by assumption. cbn. exists [].
      split; [reflexivity | now left].
  - intros visitor now Hv Hl. simpl in Hv.
    destruct Hv as [<- | [<- | [<- | [<- | []]]]].
    + erewrite event_handling_new_visitor
        by (try reflexivity; try assumption; simpl; tauto).
      cbn. eexists. reflexivity.
    + erewrite event_handling_new_visitor
        by (try reflexivity; try assumption; simpl; tauto).
      cbn. eexists. reflexivity.
    + erewrite event_handling_new_visitor
        by (try reflexivity; try assumption; simpl; tauto).
      cbn. eexists. reflexivity.
    + rewrite event_handling_new_noperson by assumption.
      cbn. eexists. reflexivity.
Qed.

(** A friend walks in, right after start-up. *)
Lemma one_track_at_a_time_witness :
  stop_first None
    (audio_log (snd (event_handling "friend" 1%Q
                       (snd (play_track "background" (-1) initial_state)))))
  = true.
Proof.
  apply (one_track_at_a_time
           (snd (event_handling "friend" 1%Q
                   (snd (play_track "background" (-1) initial_state))))).
  apply reach_tick; [apply reach_start | simpl; tauto].
Defined.

(* ------------------------------------------------------------------------- *)
(** ** The blinking overlay                                                   *)
(* ------------------------------------------------------------------------- *)

Lemma Qlt_bool_iff x y : Qlt_bool x y = true <-> (x < y)%Q.
Proof.
  unfold Qlt_bool. rewrite negb_true_iff. split.
  - intros H. apply Qnot_le_lt. intros Hle.
    apply Qle_bool_iff in Hle. congruence.
  - intros H. destruct (Qle_bool y x) eqn:E; [| reflexivity].
    apply Qle_bool_iff in E. exfalso. now apply (Qlt_not_le x y).
Qed.

(** With the period [2 * BLINK_INTERVAL = 1], the remainder is the
    fractional part. *)
Lemma float_mod_period now :
  (float_mod now (2 * BLINK_INTERVAL) == now - inject_Z (Qfloor now))%Q.
Proof.
  unfold float_mod, BLINK_INTERVAL.
  assert (E : (now / (2 * (1 # 2)) == now)%Q) by (field; discriminate).
  rewrite (Qfloor_comp _ _ E). ring.
Qed.

Lemma thief_blink_frac now :
  thief_blink now = true <-> (now - inject_Z (Qfloor now) < 1 # 2)%Q.
Proof.
  unfold thief_blink. rewrite Qlt_bool_iff, float_mod_period.
  reflexivity.
Qed.

Lemma Qfloor_unique x z :
  (inject_Z z <= x)%Q -> (x < inject_Z (z + 1))%Q -> Qfloor x = z.
Proof.
  intros Hle Hlt.
  assert (H1 : (z <= Qfloor x)%Z).
  { rewrite <- (Qfloor_Z z). now apply Qfloor_resp_le. }
  assert (H2 : (Qfloor x < z + 1)%Z).
  { apply Z.lt_nge. intros Hge.
    apply (Qlt_not_le _ _ Hlt).
    apply Qle_trans with (inject_Z (Qfloor x)); [| apply Qfloor_le].
    rewrite <- Zle_Qle. exact Hge. }
  lia.
Qed.

(** Half a period later the overlay is in the other half of its cycle. *)
Lemma thief_blink_toggles now :
  thief_blink (now + BLINK_INTERVAL) = negb (thief_blink now).
Proof.
  unfold BLINK_INTERVAL.
  pose proof (Qfloor_le now) as Hle. pose proof (Qlt_floor now) as Hlt.
  rewrite inject_Z_plus in Hlt. change (inject_Z 1) with 1%Q in Hlt.
  destruct (Qlt_le_dec (now - inject_Z (Qfloor now)) (1 # 2)) as [Hlow | Hhigh].
  - assert (Hf : Qfloor (now + (1 # 2)) = Qfloor now).
    { apply Qfloor_unique;
        [| rewrite inject_Z_plus; change (inject_Z 1) with 1%Q]; lra. }
    rewrite (proj2 (thief_blink_frac now) Hlow). cbn [negb].
    destruct (thief_blink (now + (1 # 2))) eqn:E; [| reflexivity].
    apply thief_blink_frac in E. rewrite Hf in E. lra.
  - assert (Hf : Qfloor (now + (1 # 2)) = (Qfloor now + 1)%Z).
    { apply Qfloor_unique; rewrite !inject_Z_plus;
        change (inject_Z 1) with 1%Q; lra. }
    assert (Hoff : thief_blink now = false).
    { destruct (thief_blink now) eqn:E; [| reflexivity].
      apply thief_blink_frac in E. lra. }
    rewrite Hoff. cbn [negb]. apply thief_blink_frac.
    rewrite Hf, inject_Z_plus. change (inject_Z 1) with 1%Q. lra.
Qed.

(** C8. For the category "thief" the text is drawn exactly when
    [now mod (2 * 0.5) < 0.5], so it is drawn on one half of each period
    and not on the other, half a period apart; for each of the other
    categories the text is drawn on every tick. *)
Theorem overlay_blinks {S} now (w : S) :
  overlay_text "thief" now w =
    (Ok (if thief_blink now
         then Some (mkOverlay "Visitor: thief" (10, 30)%Z (0, 0, 255)%Z)
         else None), w)
  /\ (thief_blink now = true <->
      (float_mod now (2 * (1 # 2)) < 1 # 2)%Q)
  /\ thief_blink (now + (1 # 2)) = negb (thief_blink now)
  /\ overlay_text "friend" now w =
       (Ok (Some (mkOverlay "Visitor: friend" (10, 30)%Z (0, 255, 0)%Z)), w)
  /\ overlay_text "delivery" now w =
       (Ok (Some (mkOverlay "Visitor: delivery" (10, 30)%Z (255, 255, 0)%Z)),
        w)
  /\ overlay_text "noperson" now w =
       (Ok (Some (mkOverlay "No person detected" (10, 30)%Z
                            (255, 255, 255)%Z)), w).
Proof.
  split; [| split; [| split; [| repeat split]]].
  - unfold overlay_text. cbn -[thief_blink].
    now destruct (thief_blink now).
  - unfold thief_blink. apply Qlt_bool_iff.
  - apply thief_blink_toggles.
Qed.

(** A quarter of a second into the period the text is on. *)
Lemma overlay_blinks_witness :
  thief_blink (1 # 4) = true.
Proof.
  apply (@overlay_blinks unit (1 # 4) tt). reflexivity.
Defined.

(* ------------------------------------------------------------------------- *)
(** ** Start-up and exit                                                      *)
(* ------------------------------------------------------------------------- *)

Lemma succeeds_ret {S A} (a : A) : succeeds (S := S) (ret a).
Proof. intros s. now exists a, s. Qed.

Lemma succeeds_gets {S A} (f : S -> A) : succeeds (gets f).
Proof. intros s. now exists (f s), s. Qed.

Lemma succeeds_modify {S} (f : S -> S) : succeeds (modify f).
Proof. intros s. now exists tt, (f s). Qed.

Lemma succeeds_bind {S A B} (m : M S A) (k : A -> M S B) :
  succeeds m -> (forall a, succeeds (k a)) -> succeeds (bind m k).
Proof.
  intros Hm Hk s. destruct (Hm s) as (a & s1 & E).
  rewrite (bind_ok _ _ _ _ _ E). apply Hk.
Qed.

Lemma succeeds_if {S A} (b : bool) (m1 m2 : M S A) :
  succeeds m1 -> succeeds m2 -> succeeds (if b then m1 else m2).
Proof. now destruct b. Qed.

Lemma succeeds_dict_get {S A} (d : Dict A) k v :
  assoc d k = Some v -> succeeds (S := S) (dict_get d k).
Proof. intros H s. unfold dict_get. rewrite H. now exists v, s. Qed.

Lemma succeeds_on_ctl {A} (m : M State A) : succeeds m -> succeeds (on_ctl m).
Proof.
  intros Hm w. destruct (Hm (ctl w)) as (a & s1 & E).
  unfold on_ctl. rewrite E. now eexists _, _.
Qed.

Create HintDb returns discriminated.
#[local] Hint Resolve succeeds_ret succeeds_gets succeeds_modify succeeds_if
  succeeds_on_ctl : returns.
#[local] Hint Extern 2 (succeeds (bind _ _)) =>
  apply succeeds_bind; [| intro] : returns.

Lemma succeeds_play_track name loop file :
  assoc sound_files name = Some file -> succeeds (play_track name loop).
Proof. intros Hf s. rewrite (play_track_run _ _ _ _ Hf). now eexists _, _. Qed.

(** On a category the event handling raises nothing. *)
Lemma succeeds_event_handling visitor now :
  In visitor categories -> succeeds (event_handling visitor now).
Proof.
  intros Hv.
  pose proof (succeeds_play_track "background" (-1) _ eq_refl) as Hbg.
  assert (Hd : succeeds (S := State) (dict_get delays visitor)).
  { simpl in Hv. destruct Hv as [<- | [<- | [<- | [<- | []]]]];
      now apply (succeeds_dict_get _ _ 0%Z). }
  unfold event_handling.
  apply succeeds_bind; [| intros _].
  { unfold category_change, set_last_event, set_event_start_time,
      set_event_played, music_stop, mixer_call.
    auto 10 with returns. }
  destruct (String.eqb_spec visitor "noperson") as [-> | Hn].
  - unfold keep_background, music_get_busy. auto 10 with returns.
  - assert (Ht : succeeds (play_track visitor 0)).
    { simpl in Hv. destruct Hv as [<- | [<- | [<- | [<- | []]]]];
        try (eapply succeeds_play_track; reflexivity).
      contradiction. }
    unfold start_one_shot, resume_background, music_get_busy,
      set_event_played, set_event_start_time.
    auto 12 with returns.
Qed.

(** On a category the overlay raises nothing and changes nothing. *)
Lemma overlay_text_run {S} visitor now :
  In visitor categories ->
  exists o, forall w : S, overlay_text visitor now w = (Ok o, w).
Proof.
  intros Hv. simpl in Hv.
  destruct Hv as [<- | [<- | [<- | [<- | []]]]];
    try (eexists; intros w; reflexivity).
  unfold overlay_text. cbn -[thief_blink].
  destruct (thief_blink now); eexists; intros w; reflexivity.
Qed.

Lemma on_ctl_run {A} (m : M State A) w :
  on_ctl m w =
  (fst (m (ctl w)),
   mkWorld (snd (m (ctl w))) (stdout w) (shown w) (frames_read w)).
Proof. unfold on_ctl. now destruct (m (ctl w)). Qed.

Section ScriptFacts.
Context `{V : Vision}.

(** One iteration raises nothing, tells whether it was the last, prints
    nothing, and leaves the controller in a state it can be in. *)
Lemma loop_body_run known t w :
  exists w',
    loop_body known t w = (Ok (quits t), w')
    /\ stdout w' = stdout w
    /\ (reachable (ctl w) -> reachable (ctl w')).
Proof.
  unfold loop_body, quits.
  set (w0 := snd ((if stream_ended t then on_ctl (modify track_ended)
                   else ret tt) w)).
  assert (H0 : (if stream_ended t then on_ctl (modify track_ended)
                else ret tt) w = (Ok tt, w0)
               /\ stdout w0 = stdout w
               /\ (reachable (ctl w) -> reachable (ctl w0))).
  { subst w0. destruct (stream_ended t); cbn; repeat split; auto.
    apply reach_ended. }
  destruct H0 as (E0 & Hout0 & Hr0).
  rewrite (bind_ok _ _ _ _ _ E0).
  destruct (read_ok t); cbn [negb orb].
  2:{ exists w0. now repeat split. }
  set (visitor := fst (classify_visitor known (read_frame t)
                         (detect (read_frame t)))).
  assert (Hv : In visitor categories) by apply classify_in_categories.
  unfold frame_taken. unfold bind at 1. unfold modify at 1.
  destruct (overlay_text_run (S := World) visitor (clock t) Hv) as (o & Eo).
  rewrite (bind_ok _ _ _ _ _ (Eo _)).
  unfold imshow. unfold bind at 1. unfold modify at 1.
  destruct (succeeds_event_handling visitor (clock t) Hv (ctl w0))
    as ([] & s' & Ee).
  erewrite bind_ok by (rewrite on_ctl_run; cbn [ctl]; rewrite Ee; reflexivity).
  eexists. split; [reflexivity |]. cbn. split; [exact Hout0 |].
  intros Hr. replace s' with (snd (event_handling visitor (clock t) (ctl w0)))
    by now rewrite Ee.
  apply reach_tick; auto.
Qed.

Lemma main_loop_quits known ticks :
  existsb quits ticks = true ->
  forall w, exists w',
    main_loop known ticks w = (Ok true, w') /\ stdout w' = stdout w.
Proof.
  induction ticks as [|t rest IH]; intros Hq w; [discriminate |].
  cbn [main_loop].
  destruct (loop_body_run known t w) as (w1 & E1 & Hout1 & _).
  rewrite (bind_ok _ _ _ _ _ E1).
  cbn [existsb] in Hq. destruct (quits t).
  - now exists w1.
  - destruct (IH Hq w1) as (w' & E' & Hout'). exists w'.
    split; [exact E' | congruence].
Qed.

Lemma main_loop_reachable known ticks :
  forall w, reachable (ctl w) ->
            reachable (ctl (snd (main_loop known ticks w))).
Proof.
  induction ticks as [|t rest IH]; intros w Hr; [exact Hr |].
  cbn [main_loop].
  destruct (loop_body_run known t w) as (w1 & E1 & _ & Hr1).
  rewrite (bind_ok _ _ _ _ _ E1).
  destruct (quits t); [now apply Hr1 | apply IH, Hr1, Hr].
Qed.

(** The world when line 68 is reached. *)
Lemma script_prelude :
  on_ctl (play_track "background" (-1)) initial_world =
  (Ok tt, mkWorld (snd (play_track "background" (-1) initial_state))
                  [] [] 0).
Proof. reflexivity. Qed.

(** C9. When the friends directory does not exist, or it does and the camera
    cannot be opened, the script prints its diagnostic line and exits with
    status 1 without having read a frame or shown one; and when both checks
    pass and some iteration ends the loop (the frame cannot be read, or
    escape is pressed), the script runs to its last line, stops the mixer
    and exits with status 0. *)
Theorem startup_errors_exit_1 (env : Environment) (ticks : list Tick) :
  (friends_isdir env = false ->
   exists w,
     run env ticks = (Raise (SystemExit 1), w)
     /\ exit_status (fst (run env ticks)) = Some 1%Z
     /\ stdout w = [("ERROR: friends directory not found: "
                      ++ friends_dir env)%string]
     /\ frames_read w = 0%nat /\ shown w = [])
  /\ (friends_isdir env = true -> camera_opened env = false ->
      exists w,
        run env ticks = (Raise (SystemExit 1), w)
        /\ exit_status (fst (run env ticks)) = Some 1%Z
        /\ stdout w = ["ERROR: could not open webcam"]
        /\ frames_read w = 0%nat /\ shown w = [])
  /\ (friends_isdir env = true -> camera_opened env = true ->
      existsb quits ticks = true ->
      exists w,
        run env ticks = (Ok true, w)
        /\ exit_status (fst (run env ticks)) = Some 0%Z
        /\ stdout w = ["Press ESC to quit."]
        /\ exists calls,
             audio_log (ctl w) = calls ++ [MusicStop; MixerQuit]).
Proof.
  unfold run, script. rewrite (bind_ok _ _ _ _ _ script_prelude).
  split; [| split].
  - intros Hd. rewrite Hd. cbn. eexists. repeat split.
  - intros Hd Hc. rewrite Hd, Hc. cbn. eexists. repeat split.
  - intros Hd Hc Hq. rewrite Hd, Hc. cbn [negb].
    set (wp := mkWorld (snd (play_track "background" (-1) initial_state))
                       [] [] 0).
    set (w0 := mkWorld (ctl wp) ["Press ESC to quit."] [] 0).
    rewrite (bind_ok (print "Press ESC to quit.") _ wp tt w0 eq_refl).
    destruct (main_loop_quits (load_gallery env (friends_listdir env))
                ticks Hq w0) as (w1 & E1 & Hout1).
    rewrite (bind_ok _ _ _ _ _ E1).
    unfold bind, on_ctl, music_stop, mixer_quit, mixer_call, modify, ret.
    cbn.
    eexists. split; [reflexivity |]. split; [reflexivity |].
    split; [exact Hout1 |].
    exists (audio_log (ctl w1)). now rewrite <- app_assoc.
Qed.

End ScriptFacts.

(** No friends directory; a directory but no camera; and a run of two
    frames that ends on the escape key. *)
Lemma startup_errors_exit_1_witness :
  exit_status (fst (run demo_no_dir [])) = Some 1%Z
  /\ exit_status (fst (run demo_no_camera [])) = Some 1%Z
  /\ exit_status (fst (run demo_ready demo_ticks)) = Some 0%Z.
Proof.
  split; [| split].
  - destruct (startup_errors_exit_1 demo_no_dir []) as [H _].
    destruct (H eq_refl) as (w & _ & He & _). exact He.
  - destruct (startup_errors_exit_1 demo_no_camera []) as [_ [H _]].
    destruct (H eq_refl eq_refl) as (w & _ & He & _). exact He.
  - destruct (startup_errors_exit_1 demo_ready demo_ticks) as [_ [_ H]].
    destruct (H eq_refl eq_refl eq_refl) as (w & _ & He & _). exact He.
Defined.

(* ========================================================================= *)
(** * Further properties of the code                                          *)
(* ========================================================================= *)

(* ------------------------------------------------------------------------- *)
(** ** The classifier, read backwards                                         *)
(* ------------------------------------------------------------------------- *)

Section ClassifierMore.
Context `{V : Vision}.

(** The three tests that decide the label. *)
Lemma classify_by_tests known frame results :
  fst (classify_visitor known frame results) =
    if negb (str_in "person" (detected_labels results)) then "noperson"
    else if fst (friend_scan known (frame_encodings frame)) then "friend"
    else if cue_scan (detected_labels results) then "delivery"
    else "thief".
Proof.
  unfold classify_visitor, frame_encodings.
  destruct (negb _); [reflexivity |].
  destruct (friend_scan known _) as [found cmp]. cbn [fst].
  destruct found; [reflexivity |].
  now destruct (cue_scan _).
Qed.

(** X1. The label tells which tests passed: "noperson" exactly when no
    person is detected, "friend" exactly when a person is detected and a
    face matches, "delivery" exactly when a person is detected, no face
    matches and a cue label is present, "thief" in the remaining case; and
    no other label is ever returned. *)
Theorem classify_exact known frame results :
  let c := fst (classify_visitor known frame results) in
  let person := In "person" (detected_labels results) in
  let cue := exists label, In label (detected_labels results)
                           /\ In label delivery_cues in
  In c categories
  /\ (c = "noperson" <-> ~ person)
  /\ (c = "friend" <-> person /\ face_match known frame)
  /\ (c = "delivery" <-> person /\ ~ face_match known frame /\ cue)
  /\ (c = "thief" <-> person /\ ~ face_match known frame /\ ~ cue).
Proof.
  intros c person cue. subst c. rewrite classify_by_tests.
  pose proof (str_in_In "person" (detected_labels results)) as Hp.
  pose proof (friend_scan_found known (frame_encodings frame)) as Hf.
  pose proof (cue_scan_spec (detected_labels results)) as Hc.
  fold person in Hp.
  change (fst (friend_scan known (frame_encodings frame)) = true
          <-> face_match known frame) in Hf.
  change (cue_scan (detected_labels results) = true <-> cue) in Hc.
  destruct (str_in "person" (detected_labels results)); cbn [negb].
  - assert (P : person) by now apply Hp.
    destruct (fst (friend_scan known (frame_encodings frame))).
    + assert (F : face_match known frame) by now apply Hf.
      repeat split; try (simpl; tauto); try discriminate; tauto.
    + assert (F : ~ face_match known frame)
        by (intros F; apply Hf in F; discriminate).
      destruct (cue_scan (detected_labels results)).
      * assert (C : cue) by now apply Hc.
        repeat split; try (simpl; tauto); try discriminate; tauto.
      * assert (C : ~ cue) by (intros C; apply Hc in C; discriminate).
        repeat split; try (simpl; tauto); try discriminate; tauto.
  - assert (P : ~ person) by (intros P; apply Hp in P; discriminate).
    repeat split; try (simpl; tauto); try discriminate; tauto.
Qed.

(** X2. The label depends on which labels are detected, not on their order,
    their number, or the result they came in. *)
Theorem classify_label_set known frame results1 results2 :
  (forall label, In label (detected_labels results1)
                 <-> In label (detected_labels results2)) ->
  fst (classify_visitor known frame results1)
  = fst (classify_visitor known frame results2).
Proof.
  intros H. rewrite !classify_by_tests.
  assert (Hp : str_in "person" (detected_labels results1)
               = str_in "person" (detected_labels results2)).
  { apply eq_true_iff_eq. rewrite !str_in_In. apply H. }
  assert (Hc : cue_scan (detected_labels results1)
               = cue_scan (detected_labels results2)).
  { apply eq_true_iff_eq. rewrite !cue_scan_spec.
    split; intros (l & Hl & Hq); exists l; (split; [now apply H | exact Hq]). }
  now rewrite Hp, Hc.
Qed.

(** The faces are compared in order, up to the first that matches. *)
Lemma friend_scan_log known encs :
  exists tried rest,
    encs = tried ++ rest
    /\ snd (friend_scan known encs) = map (CallCompareFaces known) tried
    /\ (if fst (friend_scan known encs)
        then exists before enc,
               tried = before ++ [enc]
               /\ In true (compare_faces known enc)
               /\ forall e, In e before -> ~ In true (compare_faces known e)
        else rest = []
             /\ forall e, In e tried -> ~ In true (compare_faces known e)).
Proof.
  induction encs as [|enc encs IH].
  - exists [], []. cbn. repeat split. intros e [].
  - cbn [friend_scan].
    destruct (true_in (compare_faces known enc)) eqn:Hm.
    + exists [enc], encs. cbn. repeat split.
      exists [], enc. repeat split; [now apply true_in_In | intros e []].
    + destruct IH as (tried & rest & He & Hs & Hr).
      destruct (friend_scan known encs) as [found calls]. cbn [fst snd] in *.
      exists (enc :: tried), rest. subst encs calls.
      repeat split.
      assert (Hn : ~ In true (compare_faces known enc)).
      { intros Ht. apply true_in_In in Ht. congruence. }
      destruct found.
      * destruct Hr as (before & e & -> & Ht & Hb).
        exists (enc :: before), e. repeat split; [exact Ht |].
        intros e' [<- | Hin]; [exact Hn | now apply Hb].
      * destruct Hr as [-> Hb]. split; [reflexivity |].
        intros e' [<- | Hin]; [exact Hn | now apply Hb].
Qed.

(** X3. When a person is detected, the frame is converted once, the faces
    are located once and encoded once, and the encodings are then compared
    with the gallery in order: every comparison before the last one made
    fails, a result "friend" means the last one made succeeded, and any other
    result means every encoding was compared and none matched. *)
Theorem classify_call_log known frame results :
  In "person" (detected_labels results) ->
  let rgb := cvtColor frame in
  let faces := face_locations rgb in
  exists tried rest,
    face_encodings rgb faces = tried ++ rest
    /\ snd (classify_visitor known frame results)
       = [CallCvtColor frame; CallFaceLocations rgb;
          CallFaceEncodings rgb faces]
         ++ map (CallCompareFaces known) tried
    /\ (forall e, In e (removelast tried) ->
                  ~ In true (compare_faces known e))
    /\ (fst (classify_visitor known frame results) = "friend" ->
        exists enc, In enc tried /\ last tried enc = enc
                    /\ In true (compare_faces known enc))
    /\ (fst (classify_visitor known frame results) <> "friend" ->
        rest = []
        /\ forall e, In e tried -> ~ In true (compare_faces known e)).
Proof.
  intros Hp rgb faces. apply str_in_In in Hp.
  destruct (friend_scan_log known (face_encodings rgb faces))
    as (tried & rest & He & Hs & Hr).
  exists tried, rest. split; [exact He |].
  unfold classify_visitor. rewrite Hp. cbn [negb]. fold rgb. fold faces.
  destruct (friend_scan known (face_encodings rgb faces)) as [found calls].
  cbn [fst snd] in Hs, Hr. subst calls.
  destruct found.
  - destruct Hr as (before & enc & -> & Ht & Hb). cbn [fst snd].
    split; [reflexivity |]. split; [| split].
    + intros e He'. rewrite removelast_last in He'. now apply Hb.
    + intros _. exists enc. rewrite last_last.
      repeat split; [apply in_or_app; right; now left | exact Ht].
    + intros Hne. now contradiction Hne.
  - destruct Hr as [-> Hb].
    assert (Hc : forall e, In e (removelast tried) ->
                           ~ In true (compare_faces known e)).
    { intros e He'. apply Hb. clear - He'.
      induction tried as [|a [|b l] IH]; cbn in *; tauto. }
    destruct (cue_scan (detected_labels results)); cbn [fst snd];
      (split; [reflexivity |]); (split; [exact Hc |]);
      (split; [discriminate | intros _; now split]).
Qed.

(** Who is called a friend has a face that matches. *)
Lemma classify_friend_inv known frame results :
  fst (classify_visitor known frame results) = "friend" ->
  face_match known frame.
Proof.
  rewrite classify_by_tests.
  destruct (negb _); [discriminate |].
  destruct (fst (friend_scan known (frame_encodings frame))) eqn:Hf.
  - intros _. now apply friend_scan_found.
  - destruct (cue_scan _); discriminate.
Qed.

(** X4. Nobody is called a friend on a frame in which no face is found, nor,
    when [compare_faces] gives one verdict per gallery entry, with an empty
    gallery. *)
Theorem classify_friend_needs_face known frame results :
  (frame_encodings frame = [] ->
   fst (classify_visitor known frame results) <> "friend")
  /\ ((forall enc, length (compare_faces known enc) = length known) ->
      known = [] ->
      fst (classify_visitor known frame results) <> "friend").
Proof.
  split.
  - intros He Hf. apply classify_friend_inv in Hf.
    destruct Hf as (enc & Hin & _). rewrite He in Hin. contradiction.
  - intros Hlen Hk Hf. apply classify_friend_inv in Hf.
    destruct Hf as (enc & _ & Ht). specialize (Hlen enc). subst known.
    destruct (compare_faces [] enc); [contradiction | discriminate].
Qed.

End ClassifierMore.

(** A backpack seen before or after the person, in one result or in two. *)
Lemma classify_label_set_witness :
  fst (classify_visitor [7] 2 [mkResult [mkBox 0; mkBox 24]])
  = fst (classify_visitor [7] 2 [mkResult [mkBox 24]; mkResult [mkBox 0;
                                                                mkBox 0]]).
Proof.
  apply (@classify_label_set demo_vision [7] 2
           [mkResult [mkBox 0; mkBox 24]]
           [mkResult [mkBox 24]; mkResult [mkBox 0; mkBox 0]]).
  intros label. cbn. tauto.
Defined.

(** Frame 2 shows the faces 2 and 3; the gallery holds 3. *)
Lemma classify_call_log_witness :
  exists tried rest,
    [2; 3] = tried ++ rest
    /\ snd (classify_visitor [3] 2 [mkResult [mkBox 0]])
       = [CallCvtColor 2; CallFaceLocations 2; CallFaceEncodings 2 [2; 3]]
         ++ map (CallCompareFaces [3]) tried.
Proof.
  assert (Hp : In "person" (detected_labels [mkResult [mkBox 0]]))
    by (cbn; tauto).
  destruct (@classify_call_log demo_vision [3] 2 [mkResult [mkBox 0]] Hp)
    as (tried & rest & He & Hs & _).
  exists tried, rest. split; [exact He | exact Hs].
Defined.

(** Frame 1 shows no face; and nobody is known. *)
Lemma classify_friend_needs_face_witness :
  fst (classify_visitor [3] 1 [mkResult [mkBox 0]]) <> "friend"
  /\ fst (classify_visitor [] 2 [mkResult [mkBox 0]]) <> "friend".
Proof.
  split.
  - exact (proj1 (@classify_friend_needs_face demo_vision [3] 1
                    [mkResult [mkBox 0]]) eq_refl).
  - exact (proj2 (@classify_friend_needs_face demo_vision [] 2
                    [mkResult [mkBox 0]]) (fun _ => eq_refl) eq_refl).
Defined.

(* ------------------------------------------------------------------------- *)
(** ** File names and the gallery                                             *)
(* ------------------------------------------------------------------------- *)

Lemma string_length_append (a b : string) :
  String.length (a ++ b)%string = String.length a + String.length b.
Proof. induction a as [|c a IH]; cbn; [reflexivity | now rewrite IH]. Qed.

Lemma substring_whole s : substring 0 (String.length s) s = s.
Proof. induction s as [|c s IH]; cbn; [reflexivity | now rewrite IH]. Qed.

Lemma substring_suffix p suffix :
  substring (String.length p) (String.length suffix) (p ++ suffix)%string
  = suffix.
Proof.
  induction p as [|c p IH]; cbn [String.length append].
  - apply substring_whole.
  - exact IH.
Qed.

Lemma substring_split s :
  forall k, k <= String.length s ->
  s = (substring 0 k s ++ substring k (String.length s - k) s)%string.
Proof.
  induction s as [|c s IH]; intros [|k] Hk; cbn in Hk; try lia.
  - reflexivity.
  - cbn [String.length Nat.sub substring append].
    now rewrite substring_whole.
  - cbn [String.length Nat.sub substring append].
    f_equal. apply IH. lia.
Qed.

(** The suffix test, both ways. *)
Lemma endswith_suffix s suffix :
  endswith s suffix = true <-> exists p, s = (p ++ suffix)%string.
Proof.
  unfold endswith. rewrite andb_true_iff, Nat.leb_le, String.eqb_eq. split.
  - intros [Hlen Hsub].
    exists (substring 0 (String.length s - String.length suffix) s).
    rewrite <- Hsub at 2.
    rewrite (substring_split s (String.length s - String.length suffix))
      at 1 by lia.
    do 2 f_equal. lia.
  - intros [p ->]. rewrite string_length_append. split; [lia |].
    replace (String.length p + String.length suffix - String.length suffix)
      with (String.length p) by lia.
    apply substring_suffix.
Qed.

(** X5. [endswith] is the suffix test: it holds exactly of the strings that
    are some prefix followed by the suffix (the empty prefix included). *)
Theorem endswith_spec s suffix :
  endswith s suffix = true <-> exists p, s = (p ++ suffix)%string.
Proof. exact (endswith_suffix s suffix). Qed.

Lemma lower_ascii_idempotent c : lower_ascii (lower_ascii c) = lower_ascii c.
Proof. destruct c as [[] [] [] [] [] [] [] []]; reflexivity. Qed.

Lemma lower_idempotent s : lower (lower s) = lower s.
Proof.
  induction s as [|c s IH]; cbn; [reflexivity |].
  now rewrite lower_ascii_idempotent, IH.
Qed.

(** X6. A file of the friends directory is taken for an image exactly when
    its name, in lower case, ends in .png, .jpg or .jpeg; so the letter case
    of the name does not matter. *)
Theorem is_image_name_spec file :
  (is_image_name file = true <->
   exists stem ext, lower file = (stem ++ ext)%string
                    /\ In ext [".png"; ".jpg"; ".jpeg"])
  /\ is_image_name (lower file) = is_image_name file.
Proof.
  split.
  - unfold is_image_name. rewrite !orb_true_iff, !endswith_suffix. split.
    + intros [[[p Hp] | [p Hp]] | [p Hp]]; eexists p, _;
        (split; [exact Hp | cbn; tauto]).
    + intros (stem & ext & He & [<- | [<- | [<- | []]]]);
        [left; left | left; right | right]; now exists stem.
  - unfold is_image_name. now rewrite lower_idempotent.
Qed.

Section GalleryFacts.
Context `{V : Vision}.

(** X7. The gallery holds exactly the first encoding found in each listed
    file that has an image name and shows at least one face; files with
    another name, and the further faces of a picture, never enter it. *)
Theorem load_gallery_spec (env : Environment) files enc :
  In enc (load_gallery env files) <->
  exists file others,
    In file files
    /\ is_image_name file = true
    /\ image_encodings env (friends_dir env ++ "/" ++ file)%string
       = enc :: others.
Proof.
  induction files as [|file files IH]; cbn [load_gallery].
  - split; [intros [] | intros (f & o & [] & _)].
  - destruct (is_image_name file) eqn:Hi.
    + destruct (image_encodings env (friends_dir env ++ "/" ++ file)%string)
        as [|e others] eqn:He.
      * rewrite IH. split; intros (f & o & Hin & Hn & Hf).
        -- exists f, o. repeat split; [now right | exact Hn | exact Hf].
        -- destruct Hin as [<- | Hin]; [congruence |]. now exists f, o.
      * split.
        -- intros [<- | Hin].
           ++ exists file, others. repeat split; [now left | exact Hi | exact He].
           ++ apply IH in Hin as (f & o & Hin & Hn & Hf).
              exists f, o. repeat split; [now right | exact Hn | exact Hf].
        -- intros (f & o & [<- | Hin] & Hn & Hf).
           ++ left. congruence.
           ++ right. apply IH. now exists f, o.
    + rewrite IH. split; intros (f & o & Hin & Hn & Hf).
      * exists f, o. repeat split; [now right | exact Hn | exact Hf].
      * destruct Hin as [<- | Hin]; [congruence |]. now exists f, o.
Qed.

(** X8. The gallery is built file by file, in the order of the listing: the
    gallery of two listings put end to end is the two galleries put end to
    end; and it has at most one entry per image name of the listing, so an
    empty directory gives an empty gallery. *)
Theorem load_gallery_app (env : Environment) files1 files2 :
  load_gallery env (files1 ++ files2)
  = load_gallery env files1 ++ load_gallery env files2
  /\ length (load_gallery env files1)
     <= length (filter is_image_name files1)
  /\ load_gallery env [] = [].
Proof.
  split; [| split; [| reflexivity]].
  - induction files1 as [|file files IH]; cbn [load_gallery app];
      [reflexivity |].
    destruct (is_image_name file); [| exact IH].
    destruct (image_encodings env _); [exact IH |].
    cbn [app]. now rewrite IH.
  - induction files1 as [|file files IH]; cbn [load_gallery filter];
      [apply le_n |].
    destruct (is_image_name file); [| exact IH].
    destruct (image_encodings env _); cbn [length]; lia.
Qed.

End GalleryFacts.

(* ------------------------------------------------------------------------- *)
(** ** The remainder and the blink cycle                                      *)
(* ------------------------------------------------------------------------- *)



(** X10. The blink depends on the value of the timestamp only, it has
    period [2 * BLINK_INTERVAL], and on a whole second the text is on. *)
Theorem thief_blink_periodic now :
  (forall later, (now == later)%Q -> thief_blink now = thief_blink later)
  /\ thief_blink (now + 2 * BLINK_INTERVAL) = thief_blink now
  /\ forall n : Z, thief_blink (inject_Z n) = true.
Proof.
  assert (Hcomp : forall a b, (a == b)%Q -> thief_blink a = thief_blink b).
  { intros a b E. apply eq_true_iff_eq. rewrite !thief_blink_frac.
    rewrite (Qfloor_comp _ _ E), E. reflexivity. }
  split; [apply Hcomp | split].
  - apply eq_true_iff_eq. rewrite !thief_blink_frac.
    pose proof (Qfloor_le now) as Hle. pose proof (Qlt_floor now) as Hlt.
    rewrite inject_Z_plus in Hlt. change (inject_Z 1) with 1%Q in Hlt.
    assert (Hf : Qfloor (now + 2 * BLINK_INTERVAL) = (Qfloor now + 1)%Z).
    { apply Qfloor_unique; unfold BLINK_INTERVAL; rewrite !inject_Z_plus;
        change (inject_Z 1) with 1%Q; lra. }
    rewrite Hf, inject_Z_plus. change (inject_Z 1) with 1%Q.
    unfold BLINK_INTERVAL. split; intros H; lra.
  - intros n. apply thief_blink_frac. rewrite Qfloor_Z. lra.
Qed.

Lemma thief_blink_periodic_witness :
  thief_blink (1 # 4) = thief_blink (2 # 8).
Proof.
  exact (proj1 (thief_blink_periodic (1 # 4)) (2 # 8)%Q eq_refl).
Defined.

(* ------------------------------------------------------------------------- *)
(** ** The controller, tick by tick                                           *)
(* ------------------------------------------------------------------------- *)

(** A tick on which the visitor is the person of the tick before. *)
Lemma event_handling_same_person visitor file now s :
  In visitor ["friend"; "delivery"; "thief"] ->
  assoc sound_files visitor = Some file ->
  last_event s = Some visitor ->
  event_handling visitor now s =
  if event_played s then
    if busy (mixer s) then (Ok tt, s)
    else (Ok tt, mkState (mkMixer (Some "toto_africa.mp3") true (-1) 0%Q)
                         (audio_log s ++ [MusicStop;
                                          MusicLoad "toto_africa.mp3";
                                          MusicPlay (-1) 0%Q])
                         (Some "background") (last_event s) now false)
  else if Qle_bool (inject_Z 0) (now - event_start_time s)%Q then
    (Ok tt, mkState (mkMixer (Some file) true 0 27%Q)
                    (audio_log s ++ [MusicStop; MusicLoad file;
                                     MusicPlay 0 27%Q])
                    (Some visitor) (last_event s) (event_start_time s) true)
  else (Ok tt, s).
Proof.
  intros Hv Hf Hl.
  destruct (person_tables visitor Hv) as (Hn & Hd & file' & Hf' & Hst).
  assert (file' = file) by congruence. subst file'.
  rewrite event_handling_phases, Hn, category_change_same by assumption.
  cbn [snd].
  destruct (event_played s) eqn:Hp.
  - rewrite (bind_ok _ _ _ _ _ (start_one_shot_played visitor now s Hp)).
    destruct (busy (mixer s)) eqn:Hb.
    + apply resume_background_waits. now right.
    + rewrite resume_background_finished by assumption.
      erewrite bind_ok
        by (apply (play_track_run "background" (-1) "toto_africa.mp3");
            reflexivity).
      reflexivity.
  - destruct (Qle_bool (inject_Z 0) (now - event_start_time s)%Q) eqn:Hq.
    + erewrite bind_ok.
      2:{ rewrite (start_one_shot_due visitor now 0%Z) by assumption.
          erewrite bind_ok by (apply play_track_run; exact Hf).
          reflexivity. }
      rewrite resume_background_waits by (right; reflexivity).
      cbn. now rewrite Hst.
    + rewrite (bind_ok _ _ _ _ _
                 (start_one_shot_not_due visitor now 0%Z s Hp Hd Hq)).
      apply resume_background_waits. now left.
Qed.

(** A tick on which nobody is seen, as on the tick before. *)
Lemma event_handling_same_noperson now s :
  last_event s = Some "noperson" ->
  event_handling "noperson" now s =
  if (opt_str_neq (current_track s) (Some "background")
      || negb (busy (mixer s)))%bool
  then (Ok tt, mkState (mkMixer (Some "toto_africa.mp3") true (-1) 0%Q)
                       (audio_log s ++ [MusicStop;
                                        MusicLoad "toto_africa.mp3";
                                        MusicPlay (-1) 0%Q])
                       (Some "background") (last_event s)
                       (event_start_time s) (event_played s))
  else (Ok tt, s).
Proof.
  intros Hl. rewrite event_handling_phases.
  rewrite category_change_same by assumption. cbn [snd].
  change (String.eqb "noperson" "noperson") with true. cbv iota.
  destruct (opt_str_neq (current_track s) (Some "background")) eqn:Et.
  - apply opt_str_neq_true in Et. cbn [orb].
    rewrite keep_background_restart by (now left).
    now rewrite (play_track_run "background" (-1) "toto_africa.mp3").
  - apply opt_str_neq_false in Et. cbn [orb].
    destruct (busy (mixer s)) eqn:Eb; cbn [negb].
    + now apply keep_background_idle.
    + rewrite keep_background_restart by (now right).
      now rewrite (play_track_run "background" (-1) "toto_africa.mp3").
Qed.

(** X11. While the track of the current category is playing, a tick of the
    same category changes nothing and calls nothing on the mixer: that is so
    for "noperson" while the background plays, and for a person while the
    one-shot plays, whatever the time. *)
Theorem steady_tick_is_silent now s :
  busy (mixer s) = true ->
  (last_event s = Some "noperson" ->
   current_track s = Some "background" ->
   event_handling "noperson" now s = (Ok tt, s))
  /\ (forall visitor,
      In visitor ["friend"; "delivery"; "thief"] ->
      last_event s = Some visitor ->
      event_played s = true ->
      event_handling visitor now s = (Ok tt, s)).
Proof.
  intros Hb. split.
  - intros Hl Ht. rewrite event_handling_same_noperson by assumption.
    apply opt_str_neq_false in Ht. now rewrite Ht, Hb.
  - intros visitor Hv Hl Hp.
    destruct (person_tables visitor Hv) as (_ & _ & file & Hf & _).
    rewrite (event_handling_same_person visitor file) by assumption.
    now rewrite Hp, Hb.
Qed.

(** The thief is still there and the thief's track is still playing. *)
Lemma steady_tick_is_silent_witness :
  event_handling "thief" 9%Q
    (mkState (mkMixer (Some "horror-tension-suspense-322304.mp3")
                      true 0 27%Q)
             [] (Some "thief") (Some "thief") 2%Q true)
  = (Ok tt,
     mkState (mkMixer (Some "horror-tension-suspense-322304.mp3")
                      true 0 27%Q)
             [] (Some "thief") (Some "thief") 2%Q true).
Proof.
  refine (proj2 (steady_tick_is_silent 9%Q
                   (mkState
                      (mkMixer (Some "horror-tension-suspense-322304.mp3")
                               true 0 27%Q)
                      [] (Some "thief") (Some "thief") 2%Q true)
                   eq_refl) "thief" _ eq_refl eq_refl).
  cbn. tauto.
Defined.

(** X12. With the visitor unchanged and the one-shot not yet played, the
    one-shot starts on the first tick whose time is not before
    [event_start_time] (all delays are 0); a tick whose clock reads an
    earlier time changes nothing. *)
Theorem one_shot_waits_for_clock visitor now s :
  In visitor ["friend"; "delivery"; "thief"] ->
  last_event s = Some visitor ->
  event_played s = false ->
  ((event_start_time s <= now)%Q ->
   exists file,
     assoc sound_files visitor = Some file
     /\ event_handling visitor now s =
        (Ok tt, mkState (mkMixer (Some file) true 0 27%Q)
                        (audio_log s ++ [MusicStop; MusicLoad file;
                                         MusicPlay 0 27%Q])
                        (Some visitor) (Some visitor)
                        (event_start_time s) true))
  /\ ((now < event_start_time s)%Q ->
      event_handling visitor now s = (Ok tt, s)).
Proof.
  intros Hv Hl Hp.
  destruct (person_tables visitor Hv) as (_ & _ & file & Hf & _).
  rewrite (event_handling_same_person visitor file) by assumption.
  rewrite Hp. split.
  - intros Hle. exists file. split; [exact Hf |].
    now rewrite Qle_bool_elapsed, Hl by assumption.
  - intros Hlt.
    destruct (Qle_bool (inject_Z 0) (now - event_start_time s)%Q) eqn:Hq;
      [| reflexivity].
    apply Qle_bool_iff in Hq. change (inject_Z 0) with 0%Q in Hq. lra.
Qed.

(** The clock reads 1 on a tick that follows an event started at 2. *)
Lemma one_shot_waits_for_clock_witness :
  event_handling "friend" 1%Q
    (mkState (mkMixer (Some "toto_africa.mp3") true (-1) 0%Q)
             [] (Some "background") (Some "friend") 2%Q false)
  = (Ok tt,
     mkState (mkMixer (Some "toto_africa.mp3") true (-1) 0%Q)
             [] (Some "background") (Some "friend") 2%Q false).
Proof.
  assert (Hv : In "friend" ["friend"; "delivery"; "thief"]) by (cbn; tauto).
  exact (proj2 (one_shot_waits_for_clock "friend" 1%Q
                  (mkState (mkMixer (Some "toto_africa.mp3") true (-1) 0%Q)
                           [] (Some "background") (Some "friend") 2%Q false)
                  Hv eq_refl eq_refl) eq_refl).
Defined.

Lemma sound_files_keys name :
  (exists file, assoc sound_files name = Some file)
  <-> In name ["background"; "friend"; "thief"; "delivery"].
Proof.
  cbn [assoc sound_files In].
  destruct (String.eqb_spec name "background") as [-> | H1];
    [split; [tauto | now eexists] |].
  destruct (String.eqb_spec name "friend") as [-> | H2];
    [split; [tauto | now eexists] |].
  destruct (String.eqb_spec name "thief") as [-> | H3];
    [split; [tauto | now eexists] |].
  destruct (String.eqb_spec name "delivery") as [-> | H4];
    [split; [tauto | now eexists] |].
  split; [intros [file Hf]; discriminate |].
  intros [E | [E | [E | [E | []]]]]; congruence.
Qed.

(** X13. [play_track] returns exactly on the four keys of [sound_files]; on
    any other name it raises [KeyError] for that name after it has stopped
    the music, and leaves [current_track] as it was. *)
Theorem play_track_unknown_name name loop s :
  (fst (play_track name loop s) = Ok tt
   <-> In name ["background"; "friend"; "thief"; "delivery"])
  /\ (~ In name ["background"; "friend"; "thief"; "delivery"] ->
      fst (play_track name loop s) = Raise (KeyError name)
      /\ audio_log (snd (play_track name loop s)) = audio_log s ++ [MusicStop]
      /\ busy (mixer (snd (play_track name loop s))) = false
      /\ loaded (mixer (snd (play_track name loop s))) = loaded (mixer s)
      /\ current_track (snd (play_track name loop s)) = current_track s).
Proof.
  pose proof (sound_files_keys name) as Hk.
  destruct (assoc sound_files name) as [file|] eqn:Hf.
  - assert (Hin : In name ["background"; "friend"; "thief"; "delivery"])
      by (apply Hk; now exists file).
    rewrite (play_track_run _ _ _ _ Hf). split; [now split | contradiction].
  - assert (Hin : ~ In name ["background"; "friend"; "thief"; "delivery"])
      by (intros Hin; apply Hk in Hin as [file Hfile]; discriminate).
    rewrite play_track_missing by assumption. cbn. split.
    + split; [discriminate | contradiction].
    + intros _. repeat split.
Qed.

(** "noperson" is a category but not a track. *)
Lemma play_track_unknown_name_witness :
  fst (play_track "noperson" 0 initial_state) = Raise (KeyError "noperson").
Proof.
  refine (proj1 (proj2 (play_track_unknown_name "noperson" 0 initial_state)
                   _)).
  cbn. intros [H | [H | [H | [H | []]]]]; discriminate.
Defined.

(** X14. In every state the controller can be in, [current_track] is a key
    of [sound_files] and the channel holds that key's file, started the way
    that track is always started: the background looping ([-1]) from 0.0,
    any other track once ([0]) from 27.0. *)
Theorem channel_matches_current_track s :
  reachable s ->
  exists name file,
    current_track s = Some name
    /\ assoc sound_files name = Some file
    /\ loaded (mixer s) = Some file
    /\ ((name = "background"
         /\ loops (mixer s) = (-1)%Z /\ start_pos (mixer s) = 0%Q)
        \/ (In name ["friend"; "thief"; "delivery"]
            /\ loops (mixer s) = 0%Z /\ start_pos (mixer s) = 27%Q)).
Proof.
  intros Hr.
  destruct (reachable_coherent s Hr)
    as [(name & file & H1 & H2 & H3 & H4 & H5) _].
  exists name, file. repeat split; try assumption.
  assert (Hin : In name ["background"; "friend"; "thief"; "delivery"])
    by (apply sound_files_keys; now exists file).
  rewrite H4, H5. cbn in Hin.
  destruct Hin as [<- | [<- | [<- | [<- | []]]]];
    cbn in H2; injection H2 as <-; cbn; tauto.
Qed.

Lemma channel_matches_current_track_witness :
  exists name file,
    current_track (snd (event_handling "friend" 1%Q
                          (snd (play_track "background" (-1)
                                  initial_state)))) = Some name
    /\ assoc sound_files name = Some file.
Proof.
  destruct (channel_matches_current_track
              (snd (event_handling "friend" 1%Q
                      (snd (play_track "background" (-1) initial_state))))
              (reach_tick _ "friend" 1%Q reach_start
                 (or_introl eq_refl)))
    as (name & file & H1 & H2 & _).
  exists name, file. split; [exact H1 | exact H2].
Defined.

(** X15. In every state the controller can be in, [event_played] tells
    which track is current: the one-shot of the last category seen while it
    is set, the background while it is not; and it is set only while the
    last category seen is a person. *)
Theorem event_played_tells_track s :
  reachable s ->
  current_track s
    = (if event_played s then last_event s else Some "background")
  /\ (event_played s = true ->
      exists visitor, last_event s = Some visitor
                      /\ In visitor ["friend"; "delivery"; "thief"]).
Proof.
  induction 1 as [| s visitor now Hr [IHt IHp] Hv | s Hr IH].
  - rewrite (play_track_run "background" (-1) "toto_africa.mp3")
      by reflexivity.
    cbn. split; [reflexivity | discriminate].
  - destruct (opt_str_neq (last_event s) (Some visitor)) eqn:E.
    + apply opt_str_neq_true in E. cbn in Hv.
      destruct Hv as [<- | [<- | [<- | [<- | []]]]].
      1-3: erewrite event_handling_new_visitor
             by (try reflexivity; try assumption; cbn; tauto).
      1-3: cbn; split; [reflexivity | intros _; eexists].
      1-3: split; [reflexivity | cbn; tauto].
      rewrite event_handling_new_noperson by assumption.
      cbn. split; [reflexivity | discriminate].
    + apply opt_str_neq_false in E. cbn in Hv.
      destruct Hv as [<- | [<- | [<- | [<- | []]]]].
      1-3: erewrite event_handling_same_person
             by (try reflexivity; try assumption; cbn; tauto).
      1-3: destruct (event_played s) eqn:Hp;
             [ destruct (busy (mixer s));
               [ cbn [snd]; rewrite Hp; split; assumption
               | cbn; split; [reflexivity | discriminate] ]
             | destruct (Qle_bool _ _);
               [ cbn; split; [now rewrite E | intros _; eexists];
                 split; [exact E | cbn; tauto]
               | cbn [snd]; rewrite Hp; split; assumption ] ].
      rewrite event_handling_same_noperson by assumption.
      assert (Hp : event_played s = false).
      { destruct (event_played s); [| reflexivity].
        destruct (IHp eq_refl) as (v & Hl & Hin). rewrite E in Hl.
        injection Hl as <-. cbn in Hin.
        destruct Hin as [H | [H | [H | []]]]; discriminate. }
      destruct (_ || _)%bool; [| cbn [snd]; split; assumption].
      cbn. rewrite Hp. split; [reflexivity | discriminate].
  - exact IH.
Qed.

Lemma event_played_tells_track_witness :
  current_track (snd (event_handling "thief" 1%Q
                        (snd (play_track "background" (-1) initial_state))))
  = Some "thief".
Proof.
  exact (proj1 (event_played_tells_track
                  (snd (event_handling "thief" 1%Q
                          (snd (play_track "background" (-1)
                                  initial_state))))
                  (reach_tick _ "thief" 1%Q reach_start
                     (or_intror (or_intror (or_introl eq_refl)))))).
Defined.

(** The calls one tick makes on the mixer. *)
Lemma event_handling_calls visitor now s :
  In visitor categories ->
  exists calls,
    audio_log (snd (event_handling visitor now s)) = audio_log s ++ calls
    /\ (calls = []
        \/ exists file loop start,
             calls = [MusicStop; MusicLoad file; MusicPlay loop start]
             \/ (last_event s <> Some visitor
                 /\ calls = [MusicStop; MusicStop; MusicLoad file;
                             MusicPlay loop start])).
Proof.
  intros Hv.
  destruct (opt_str_neq (last_event s) (Some visitor)) eqn:E.
  - apply opt_str_neq_true in E. cbn in Hv.
    destruct Hv as [<- | [<- | [<- | [<- | []]]]].
    1-3: erewrite event_handling_new_visitor
           by (try reflexivity; try assumption; cbn; tauto).
    4: rewrite event_handling_new_noperson by assumption.
    all: cbn; eexists; (split; [reflexivity |]); right.
    all: eexists _, _, _; right; (split; [exact E | reflexivity]).
  - apply opt_str_neq_false in E. cbn in Hv.
    destruct Hv as [<- | [<- | [<- | [<- | []]]]].
    1-3: erewrite event_handling_same_person
           by (try reflexivity; try assumption; cbn; tauto).
    1-3: destruct (event_played s);
           [ destruct (busy (mixer s)) | destruct (Qle_bool _ _) ].
    13: rewrite event_handling_same_noperson by assumption;
        destruct (_ || _)%bool.
    all: cbn.
    all: try (exists []; split; [now rewrite app_nil_r | now left]).
    all: eexists; (split; [reflexivity |]); right.
    all: eexists _, _, _; left; reflexivity.
Qed.

(** X16. A tick starts at most one track: the calls it makes on the mixer
    are none, or stop, load, play, or, when the category changed, a stop
    followed by stop, load, play. *)
Theorem tick_starts_at_most_one_track visitor now s :
  In visitor categories ->
  exists calls,
    audio_log (snd (event_handling visitor now s)) = audio_log s ++ calls
    /\ (calls = []
        \/ exists file loop start,
             calls = [MusicStop; MusicLoad file; MusicPlay loop start]
             \/ (last_event s <> Some visitor
                 /\ calls = [MusicStop; MusicStop; MusicLoad file;
                             MusicPlay loop start])).
Proof. exact (event_handling_calls visitor now s). Qed.

Lemma tick_starts_at_most_one_track_witness :
  exists calls,
    audio_log (snd (event_handling "delivery" 4%Q initial_state))
    = audio_log initial_state ++ calls.
Proof.
  destruct (tick_starts_at_most_one_track "delivery" 4%Q initial_state
              (or_intror (or_introl eq_refl))) as (calls & H & _).
  exists calls. exact H.
Defined.

(* ------------------------------------------------------------------------- *)
(** ** The main loop                                                          *)
(* ------------------------------------------------------------------------- *)

Lemma land_255 k : Z.land k 255 = (k mod 256)%Z.
Proof. change 255%Z with (Z.ones 8). now rewrite Z.land_ones by lia. Qed.

Section LoopFacts.
Context `{V : Vision}.

(** One iteration, in closed form. *)
Lemma loop_body_world known t w :
  let w0 := if stream_ended t
            then mkWorld (track_ended (ctl w)) (stdout w) (shown w)
                         (frames_read w)
            else w in
  let visitor := fst (classify_visitor known (read_frame t)
                        (detect (read_frame t))) in
  exists o,
    (forall x : World, overlay_text visitor (clock t) x = (Ok o, x))
    /\ loop_body known t w =
       (Ok (quits t),
        if read_ok t
        then mkWorld (snd (event_handling visitor (clock t) (ctl w0)))
                     (stdout w0) (shown w0 ++ [o]) (S (frames_read w0))
        else w0).
Proof.
  intros w0 visitor.
  assert (Hv : In visitor categories) by apply classify_in_categories.
  destruct (overlay_text_run (S := World) visitor (clock t) Hv) as (o & Eo).
  exists o. split; [exact Eo |].
  unfold loop_body, quits.
  assert (E0 : (if stream_ended t then on_ctl (modify track_ended)
                else ret tt) w = (Ok tt, w0))
    by (subst w0; now destruct (stream_ended t)).
  rewrite (bind_ok _ _ _ _ _ E0).
  destruct (read_ok t); cbn [negb orb]; [| reflexivity].
  fold visitor.
  unfold frame_taken. unfold bind at 1. unfold modify at 1.
  rewrite (bind_ok _ _ _ _ _ (Eo _)).
  unfold imshow. unfold bind at 1. unfold modify at 1.
  destruct (succeeds_event_handling visitor (clock t) Hv (ctl w0))
    as ([] & s' & Ee).
  erewrite bind_ok by (rewrite on_ctl_run; cbn [ctl]; rewrite Ee; reflexivity).
  cbn. now rewrite Ee.
Qed.

(** The loop over two runs of iterations put end to end. *)
Lemma main_loop_app known ticks1 ticks2 :
  forall w,
    main_loop known (ticks1 ++ ticks2) w =
    if existsb quits ticks1 then main_loop known ticks1 w
    else main_loop known ticks2 (snd (main_loop known ticks1 w)).
Proof.
  induction ticks1 as [|t ticks1 IH]; intros w; [reflexivity |].
  cbn [app main_loop existsb].
  destruct (loop_body_run known t w) as (w1 & E1 & _).
  rewrite !(bind_ok _ _ _ _ _ E1).
  destruct (quits t); cbn [orb]; [reflexivity | apply IH].
Qed.

(** What the loop has done when it stops or runs out of iterations. *)
Lemma main_loop_facts known ticks :
  forall w, exists w',
    main_loop known ticks w = (Ok (existsb quits ticks), w')
    /\ stdout w' = stdout w
    /\ length (shown w') + frames_read w = length (shown w) + frames_read w'
    /\ frames_read w <= frames_read w' <= frames_read w + length ticks
    /\ (existsb quits ticks = false ->
        frames_read w' = frames_read w + length ticks)
    /\ exists calls,
         audio_log (ctl w') = audio_log (ctl w) ++ calls
         /\ ~ In MixerQuit calls.
Proof.
  induction ticks as [|t ticks IH]; intros w.
  - exists w. cbn. repeat split; try lia.
    exists []. split; [now rewrite app_nil_r | intros []].
  - cbn [main_loop existsb length].
    destruct (loop_body_world known t w) as (o & _ & E1).
    cbv zeta in E1.
    set (w0 := if stream_ended t
               then mkWorld (track_ended (ctl w)) (stdout w) (shown w)
                            (frames_read w)
               else w) in E1.
    set (visitor := fst (classify_visitor known (read_frame t)
                           (detect (read_frame t)))) in E1.
    assert (H0 : stdout w0 = stdout w /\ shown w0 = shown w
                 /\ frames_read w0 = frames_read w
                 /\ audio_log (ctl w0) = audio_log (ctl w)).
    { subst w0. now destruct (stream_ended t). }
    destruct H0 as (Ho & Hs & Hf & Ha).
    rewrite (bind_ok _ _ _ _ _ E1).
    assert (Hq : read_ok t = false -> quits t = true).
    { intros Hr. unfold quits. now rewrite Hr. }
    destruct (event_handling_calls visitor (clock t) (ctl w0)
                (classify_in_categories _ _ _)) as (calls & Hc & Hshape).
    fold visitor in Hc.
    assert (Hnq : ~ In MixerQuit calls).
    { destruct Hshape as [-> | (f & l & st & [-> | [_ ->]])]; cbn;
        intuition discriminate. }
    set (w1 := if read_ok t
               then mkWorld (snd (event_handling visitor (clock t) (ctl w0)))
                            (stdout w0) (shown w0 ++ [o])
                            (S (frames_read w0))
               else w0) in *.
    assert (H1 : stdout w1 = stdout w
                 /\ length (shown w1) + frames_read w
                    = length (shown w) + frames_read w1
                 /\ frames_read w <= frames_read w1 <= S (frames_read w)
                 /\ (read_ok t = true -> frames_read w1 = S (frames_read w))
                 /\ exists calls1,
                      audio_log (ctl w1) = audio_log (ctl w) ++ calls1
                      /\ ~ In MixerQuit calls1).
    { subst w1. destruct (read_ok t); cbn [stdout shown frames_read ctl].
      - rewrite length_app, Hs, Hf, Ho. cbn [length].
        repeat split; try lia.
        exists calls. rewrite Hc, Ha. now split.
      - rewrite Ho, Hs, Hf. repeat split; try lia; try discriminate.
        exists []. rewrite Ha, app_nil_r. split; [reflexivity | intros []]. }
    destruct H1 as (Ho1 & Hs1 & Hf1 & Hr1 & calls1 & Ha1 & Hn1).
    destruct (quits t) eqn:Eq; cbn [orb].
    + exists w1. repeat split; try lia; try discriminate; try assumption.
      exists calls1. now split.
    + destruct (IH w1) as (w' & E' & Ho' & Hs' & Hf' & Hr' & calls' & Ha' & Hn').
      assert (Hread : read_ok t = true).
      { destruct (read_ok t); [reflexivity | discriminate (Hq eq_refl)]. }
      specialize (Hr1 Hread).
      exists w'. split; [exact E' |]. split; [congruence |].
      split; [lia |]. split; [lia |]. split.
      * intros Hnone. rewrite (Hr' Hnone). lia.
      * exists (calls1 ++ calls'). rewrite Ha', Ha1, app_assoc.
        split; [reflexivity |]. intros Hin.
        apply in_app_or in Hin as [Hin | Hin]; contradiction.
Qed.

(** The script once both start-up tests have passed. *)
Lemma script_ready (env : Environment) ticks :
  friends_isdir env = true -> camera_opened env = true ->
  run env ticks =
  (left <- main_loop (load_gallery env (friends_listdir env)) ticks ;;
   if left then on_ctl music_stop ;; on_ctl mixer_quit ;; ret true
   else ret false)
    (mkWorld (snd (play_track "background" (-1) initial_state))
             ["Press ESC to quit."] [] 0).
Proof.
  intros Hd Hc. unfold run, script.
  rewrite (bind_ok _ _ _ _ _ script_prelude), Hd, Hc. reflexivity.
Qed.

End LoopFacts.

Section ScriptMore.
Context `{V : Vision}.

(** The three ways a run can go. *)
Lemma run_cases (env : Environment) ticks :
  let s0 := snd (play_track "background" (-1) initial_state) in
  (friends_isdir env = false
   /\ run env ticks =
      (Raise (SystemExit 1),
       mkWorld s0 [("ERROR: friends directory not found: "
                    ++ friends_dir env)%string] [] 0))
  \/ (friends_isdir env = true /\ camera_opened env = false
      /\ run env ticks =
         (Raise (SystemExit 1),
          mkWorld s0 ["ERROR: could not open webcam"] [] 0))
  \/ (friends_isdir env = true /\ camera_opened env = true
      /\ exists w' calls,
           main_loop (load_gallery env (friends_listdir env)) ticks
             (mkWorld s0 ["Press ESC to quit."] [] 0)
           = (Ok (existsb quits ticks), w')
           /\ stdout w' = ["Press ESC to quit."]
           /\ length (shown w') = frames_read w'
           /\ frames_read w' <= length ticks
           /\ (existsb quits ticks = false -> frames_read w' = length ticks)
           /\ audio_log (ctl w') = audio_log s0 ++ calls
           /\ ~ In MixerQuit calls
           /\ run env ticks =
              (Ok (existsb quits ticks),
               if existsb quits ticks
               then mkWorld (snd (mixer_quit (snd (music_stop (ctl w')))))
                            (stdout w') (shown w') (frames_read w')
               else w')).
Proof.
  intros s0.
  destruct (friends_isdir env) eqn:Hd; [| left].
  2:{ split; [reflexivity |]. unfold run, script.
      rewrite (bind_ok _ _ _ _ _ script_prelude), Hd. reflexivity. }
  right. destruct (camera_opened env) eqn:Hc; [right | left].
  2:{ repeat split. unfold run, script.
      rewrite (bind_ok _ _ _ _ _ script_prelude), Hd, Hc. reflexivity. }
  repeat split.
  destruct (main_loop_facts (load_gallery env (friends_listdir env)) ticks
              (mkWorld s0 ["Press ESC to quit."] [] 0))
    as (w' & E & Ho & Hs & Hf & Hr & calls & Ha & Hn).
  cbn [stdout shown frames_read ctl length] in Ho, Hs, Hf, Hr, Ha.
  exists w', calls. split; [exact E |]. split; [exact Ho |].
  split; [lia |]. split; [lia |]. split; [exact Hr |].
  split; [exact Ha |]. split; [exact Hn |].
  rewrite script_ready by assumption. fold s0.
  rewrite (bind_ok _ _ _ _ _ E).
  destruct (existsb quits ticks); reflexivity.
Qed.

(** X17. A run never ends on a [KeyError]: it ends with [sys.exit(1)]
    exactly when the friends directory is missing or the camera cannot be
    opened, it runs to its last line exactly when both tests pass and some
    iteration ends the loop, and otherwise the loop is still going. *)
Theorem run_outcomes (env : Environment) ticks :
  (forall k, fst (run env ticks) <> Raise (KeyError k))
  /\ (fst (run env ticks) = Raise (SystemExit 1)
      <-> friends_isdir env = false \/ camera_opened env = false)
  /\ (fst (run env ticks) = Ok true
      <-> friends_isdir env = true /\ camera_opened env = true
          /\ existsb quits ticks = true)
  /\ (fst (run env ticks) = Ok false
      <-> friends_isdir env = true /\ camera_opened env = true
          /\ existsb quits ticks = false).
Proof.
  destruct (run_cases env ticks)
    as [(Hd & E) | [(Hd & Hc & E) | (Hd & Hc & w' & calls & _ & _ & _ & _
                                     & _ & _ & _ & E)]];
    rewrite E, Hd; try rewrite Hc; cbn [fst].
  - repeat split; try discriminate; try tauto;
      intros (H1 & H2); discriminate.
  - repeat split; try discriminate; try tauto;
      intros (H1 & H2 & H3); discriminate.
  - destruct (existsb quits ticks); repeat split; try discriminate;
      try tauto; try (intros [H | H]; discriminate);
      intros (H1 & H2 & H3); discriminate.
Qed.

(** X18. Nothing is read once an iteration has ended the loop: the
    iterations that would follow it do not change the run. *)
Theorem nothing_after_quit (env : Environment) before t after :
  quits t = true ->
  run env (before ++ t :: after) = run env (before ++ [t]).
Proof.
  intros Hq.
  assert (Hloop : forall known w,
            main_loop known (before ++ t :: after) w
            = main_loop known (before ++ [t]) w).
  { intros known w. rewrite !main_loop_app.
    destruct (existsb quits before); [reflexivity |].
    cbn [main_loop].
    destruct (loop_body_run known t (snd (main_loop known before w)))
      as (w1 & E1 & _).
    rewrite !(bind_ok _ _ _ _ _ E1). now rewrite Hq. }
  destruct (friends_isdir env) eqn:Hd.
  - destruct (camera_opened env) eqn:Hc.
    + rewrite !script_ready by assumption. unfold bind at 1 3.
      now rewrite Hloop.
    + unfold run, script.
      now rewrite !(bind_ok _ _ _ _ _ script_prelude), Hd, Hc.
  - unfold run, script.
    now rewrite !(bind_ok _ _ _ _ _ script_prelude), Hd.
Qed.

(** X19. While no iteration ends the loop, every iteration reads a frame:
    after as many iterations as one likes the script is still in the loop,
    it has read and shown one frame per iteration, printed only its first
    line, and not shut the mixer down. *)
Theorem loop_runs_on (env : Environment) ticks :
  friends_isdir env = true -> camera_opened env = true ->
  existsb quits ticks = false ->
  exists w,
    run env ticks = (Ok false, w)
    /\ frames_read w = length ticks
    /\ length (shown w) = length ticks
    /\ stdout w = ["Press ESC to quit."]
    /\ ~ In MixerQuit (audio_log (ctl w)).
Proof.
  intros Hd Hc Hq.
  destruct (run_cases env ticks)
    as [(Hd' & _) | [(_ & Hc' & _) | (_ & _ & w' & calls & _ & Ho & Hs & _
                                      & Hr & Ha & Hn & E)]];
    try congruence.
  rewrite Hq in E. exists w'. split; [exact E |].
  specialize (Hr Hq). repeat split; try congruence.
  rewrite Ha. cbn. intros [H | [H | [H | H]]]; try discriminate.
  contradiction.
Qed.

(** X20. In every run, however it ends, each frame read from the camera has
    been shown exactly once, and no more frames have been read than there
    were iterations. *)
Theorem every_frame_is_shown (env : Environment) ticks :
  length (shown (snd (run env ticks))) = frames_read (snd (run env ticks))
  /\ frames_read (snd (run env ticks)) <= length ticks.
Proof.
  destruct (run_cases env ticks)
    as [(_ & E) | [(_ & _ & E) | (_ & _ & w' & calls & _ & _ & Hs & Hf
                                  & _ & _ & _ & E)]];
    rewrite E; cbn [snd].
  - cbn. lia.
  - cbn. lia.
  - destruct (existsb quits ticks); cbn [shown frames_read]; lia.
Qed.

(** X21. An iteration whose frame cannot be read ends the loop at once:
    no frame is counted or shown, nothing is classified, and the controller
    is left as it was, up to the stream having run out meanwhile. *)
Theorem failed_read_ends_loop known t rest w :
  read_ok t = false ->
  main_loop known (t :: rest) w =
  (Ok true,
   if stream_ended t
   then mkWorld (track_ended (ctl w)) (stdout w) (shown w) (frames_read w)
   else w).
Proof.
  intros Hr. cbn [main_loop].
  destruct (loop_body_world known t w) as (o & _ & E).
  cbv zeta in E. rewrite Hr in E. unfold quits in E. rewrite Hr in E.
  cbn [negb orb] in E. now rewrite (bind_ok _ _ _ _ _ E).
Qed.

(** X22. An iteration whose frame was read ends the loop exactly when the
    low byte of the key code is 27: the code -1 that [cv2.waitKey] returns
    when no key is pressed does not end it, and 27 with higher bits set
    does. *)
Theorem escape_is_the_low_byte t :
  read_ok t = true ->
  (quits t = true <-> (key t mod 256 = 27)%Z)
  /\ (key t = (-1)%Z -> quits t = false)
  /\ (forall n, key t = (27 + 256 * n)%Z -> quits t = true).
Proof.
  intros Hr. unfold quits. rewrite Hr, land_255. cbn [negb orb].
  split; [apply Z.eqb_eq | split].
  - intros ->. reflexivity.
  - intros n ->. apply Z.eqb_eq.
    replace (27 + 256 * n)%Z with (27 + n * 256)%Z by lia.
    now rewrite Z_mod_plus_full.
Qed.

(** X23. The background is started before anything else: in every run the
    first calls on the mixer are stop, load of the background file, play
    with [loop=-1] from 0.0.  When start-up fails these are the only calls,
    so the script exits with the music still playing.  And the mixer is shut
    down exactly in the runs that reach the last line. *)
Theorem background_starts_first (env : Environment) ticks :
  (exists calls,
     audio_log (ctl (snd (run env ticks)))
     = [MusicStop; MusicLoad "toto_africa.mp3"; MusicPlay (-1) 0%Q] ++ calls)
  /\ (friends_isdir env = false \/ camera_opened env = false ->
      audio_log (ctl (snd (run env ticks)))
      = [MusicStop; MusicLoad "toto_africa.mp3"; MusicPlay (-1) 0%Q]
      /\ busy (mixer (ctl (snd (run env ticks)))) = true)
  /\ (In MixerQuit (audio_log (ctl (snd (run env ticks))))
      <-> fst (run env ticks) = Ok true).
Proof.
  destruct (run_cases env ticks)
    as [(Hd & E) | [(Hd & Hc & E) | (Hd & Hc & w' & calls & _ & _ & _ & _
                                     & _ & Ha & Hn & E)]];
    rewrite E; cbn [fst snd ctl].
  - split; [exists []; reflexivity |]. split; [now split |].
    cbn. split; [| discriminate].
    intros [H | [H | [H | []]]]; discriminate.
  - split; [exists []; reflexivity |]. split; [now split |].
    cbn. split; [| discriminate].
    intros [H | [H | [H | []]]]; discriminate.
  - assert (Hbase : forall l, In MixerQuit
              ([MusicStop; MusicLoad "toto_africa.mp3"; MusicPlay (-1) 0%Q]
               ++ l) -> In MixerQuit l).
    { intros l [H | [H | [H | H]]]; try discriminate. exact H. }
    split; [| split].
    + destruct (existsb quits ticks); cbn [ctl].
      * cbn. rewrite Ha. cbn. eexists. rewrite <- !app_assoc. reflexivity.
      * rewrite Ha. now exists calls.
    + intros [H | H]; congruence.
    + destruct (existsb quits ticks); cbn [ctl].
      * cbn. split; [reflexivity |]. intros _.
        apply in_or_app. right. now left.
      * rewrite Ha. split; [| discriminate].
        intros Hin. apply Hbase in Hin. contradiction.
Qed.

End ScriptMore.

(** Escape is pressed on the second frame; a third one is never read. *)
Lemma nothing_after_quit_witness :
  run demo_ready
    ([@mkTick demo_vision true 2 (1 # 4)%Q (-1) false]
     ++ @mkTick demo_vision true 0 (3 # 4)%Q 27 true
     :: [@mkTick demo_vision true 1 (5 # 4)%Q (-1) false])
  = run demo_ready demo_ticks.
Proof.
  exact (nothing_after_quit demo_ready
           [@mkTick demo_vision true 2 (1 # 4)%Q (-1) false]
           (@mkTick demo_vision true 0 (3 # 4)%Q 27 true)
           [@mkTick demo_vision true 1 (5 # 4)%Q (-1) false]
           eq_refl).
Defined.

(** Two frames and no key. *)
Lemma loop_runs_on_witness :
  exists w,
    run demo_ready
      [@mkTick demo_vision true 2 (1 # 4)%Q (-1) false;
       @mkTick demo_vision true 1 (3 # 4)%Q (-1) true]
    = (Ok false, w)
    /\ frames_read w = 2.
Proof.
  destruct (loop_runs_on demo_ready
              [@mkTick demo_vision true 2 (1 # 4)%Q (-1) false;
               @mkTick demo_vision true 1 (3 # 4)%Q (-1) true]
              eq_refl eq_refl eq_refl) as (w & E & Hf & _).
  exists w. split; [exact E | exact Hf].
Defined.

(** The camera gives no frame on the first iteration. *)
Lemma failed_read_ends_loop_witness :
  fst (main_loop [3] [@mkTick demo_vision false 0 0%Q (-1) false]
         initial_world)
  = Ok true.
Proof.
  exact (f_equal fst
           (@failed_read_ends_loop demo_vision [3]
              (@mkTick demo_vision false 0 0%Q (-1) false) []
              initial_world eq_refl)).
Defined.

(** Escape with a modifier bit above the low byte. *)
Lemma escape_is_the_low_byte_witness :
  quits (@mkTick demo_vision true 0 0%Q (27 + 256 * 4) false) = true.
Proof.
  exact (proj2 (proj2 (escape_is_the_low_byte
                         (@mkTick demo_vision true 0 0%Q (27 + 256 * 4)
                                  false)
                         eq_refl)) 4%Z eq_refl).
Defined.

(** No camera: the script exits while the background plays. *)
Lemma background_starts_first_witness :
  busy (mixer (ctl (snd (run demo_no_camera [])))) = true.
Proof.
  exact (proj2 (proj1 (proj2 (background_starts_first demo_no_camera []))
                  (or_intror eq_refl))).
Defined.

Section RunStates.
Context `{V : Vision}.

(** X24. As long as the script has not run its last lines, the controller
    is in one of the states described by [reachable]: the state left by
    line 58 when start-up fails, and the state left by the iterations made
    so far while the loop is going. *)
Theorem run_state_reachable (env : Environment) ticks :
  fst (run env ticks) <> Ok true ->
  reachable (ctl (snd (run env ticks))).
Proof.
  intros Hne.
  destruct (run_cases env ticks)
    as [(_ & E) | [(_ & _ & E) | (_ & _ & w' & calls & El & _ & _ & _
                                  & _ & _ & _ & E)]];
    rewrite E in *; cbn [fst snd ctl] in *.
  - apply reach_start.
  - apply reach_start.
  - destruct (existsb quits ticks); [now contradiction Hne |].
    replace w' with
      (snd (main_loop (load_gallery env (friends_listdir env)) ticks
              (mkWorld (snd (play_track "background" (-1) initial_state))
                       ["Press ESC to quit."] [] 0)))
      by now rewrite El.
    apply main_loop_reachable. apply reach_start.
Qed.

End RunStates.

(** One frame in, the loop still going. *)
Lemma run_state_reachable_witness :
  reachable
    (ctl (snd (run demo_ready
                 [@mkTick demo_vision true 2 (1 # 4)%Q (-1) false]))).
Proof.
  apply (run_state_reachable demo_ready
           [@mkTick demo_vision true 2 (1 # 4)%Q (-1) false]).
  discriminate.
Defined.
